(** * The multi-topic decouple sink of the broker ingress

    A shallow embedding of [pkg/broker/ingress/multi_topic_decouple_sink.go]:
    the sink that resolves a broker to its decouple topic through the broker
    configuration, keeps one pubsub topic handle per broker in a map guarded
    by a read-write mutex, and publishes the encoded event to that handle.

    The Go methods mutate the receiver [m]; here every method is a
    computation in a state-and-outcome monad over the receiver.  Next to the
    fields of the Go struct the state carries what the methods do to the
    world outside the struct: the set of handles on which [Stop] was called
    and the sequence of observable operations (configuration reads, lock
    operations, map reads and writes, handle creation, [Stop], [Publish]). *)

From stdpp Require Import gmap strings list fin_maps.

Open Scope string_scope.
Open Scope list_scope.

(** ** k8s.io/apimachinery/pkg/types *)

Module types.

Record NamespacedName := mkNamespacedName {
  Namespace : string;
  Name : string
}.

#[global] Instance NamespacedName_eq_dec : EqDecision NamespacedName.
Proof. solve_decision. Defined.

#[global] Instance NamespacedName_countable : Countable NamespacedName.
Proof.
  refine (inj_countable' (fun b => (Namespace b, Name b))
                         (fun p => mkNamespacedName p.1 p.2) _).
  by intros [].
Defined.

(** [NamespacedName.String]: namespace, separator, name. *)
Definition String (n : NamespacedName) : string :=
  Namespace n +:+ "/" +:+ Name n.

End types.

(** ** pkg/broker/config: the broker configuration read by the sink *)

Module config.

(** Modelled from the spec: the enumeration [config.State] is declared in
    the generated configuration package, which is not among the sources; the
    data model gives a route the states Unready and Ready, and the sink only
    compares against [State_READY]. *)
Inductive State := State_UNKNOWN | State_READY.

#[global] Instance State_eq_dec : EqDecision State.
Proof. solve_decision. Defined.

(** Modelled from the spec: [config.Queue] and [config.Broker] are declared
    in the same absent package; the sink reads the fields [State],
    [DecoupleQueue] (a pointer, possibly nil) and [DecoupleQueue.Topic]. *)
Record Queue := mkQueue { Topic : string }.

Record Broker := mkBroker {
  Broker_State : State;
  DecoupleQueue : option Queue
}.

(** Modelled from the spec: [config.ReadonlyTargets] is an interface of the
    absent package; [GetBroker(namespace, name)] returns the broker entry and
    whether it was found, as a snapshot. *)
Definition GetBroker (t : gmap types.NamespacedName Broker)
    (namespace name : string) : option Broker :=
  t !! types.mkNamespacedName namespace name.

End config.

(** ** cloud.google.com/go/pubsub: clients and topic handles *)

Module pubsub.

(** A [*pubsub.Topic]: the identity of the handle object together with the
    topic id it was created for, which never changes. *)
Record Topic := mkTopic { addr : nat; ID : string }.

#[global] Instance Topic_eq_dec : EqDecision Topic.
Proof. solve_decision. Defined.

(** The client, as far as the sink can tell: how many handles it has made. *)
Record Client := mkClient { made : nat }.

(** [Client.Topic(id)] makes a new handle object for [id]; it has no error
    result. *)
Definition Client_Topic (c : Client) (id : string) : Topic * Client :=
  (mkTopic (made c) id, mkClient (S (made c))).

End pubsub.

(** ** go.uber.org/zap: what the sink writes to its logger *)

Module zap.

Inductive Level := DebugLevel | InfoLevel | WarnLevel | ErrorLevel.

#[global] Instance Level_eq_dec : EqDecision Level.
Proof. solve_decision. Defined.

Inductive Field :=
| String (key : string) (val : string)
| AnyString (key : string) (val : string)
| AnyName (key : string) (val : types.NamespacedName)
| AnyBroker (key : string) (val : config.Broker).

Record Entry := mkEntry {
  level : Level;
  message : string;
  fields : list Field
}.

End zap.

(** ** Errors *)

(** Modelled from the spec: the sentinels [ErrNotFound], [ErrNotReady] and
    [ErrIncomplete] are package variables of [ingress] declared outside this
    file; they are three distinct error values.  [Errorf] is
    [fmt.Errorf(format, broker, wrapped)] with a [%w] verb, and [Foreign]
    stands for the errors of the encoder, the transport and the context. *)
Inductive error :=
| ErrNotFound
| ErrNotReady
| ErrIncomplete
| Errorf (format : string) (broker : types.NamespacedName) (wrapped : error)
| Foreign (description : string).

#[global] Instance error_eq_dec : EqDecision error.
Proof. solve_decision. Defined.

(** [errors.Is]: the error is the target or wraps it. *)
Fixpoint errors_Is (e target : error) : bool :=
  bool_decide (e = target) ||
  match e with
  | Errorf _ _ w => errors_Is w target
  | _ => false
  end.

(** ** The sink and the operations it performs *)

Import types.

Inductive event :=
| EvGetBroker (broker : NamespacedName)
| EvRLock
| EvRUnlock
| EvLock
| EvUnlock
| EvRead (broker : NamespacedName)
| EvStop (t : pubsub.Topic)
| EvOpen (t : pubsub.Topic)
| EvInstall (broker : NamespacedName) (t : pubsub.Topic)
| EvPublish (t : pubsub.Topic).

#[global] Instance event_eq_dec : EqDecision event.
Proof. solve_decision. Defined.

(** The struct [multiTopicDecoupleSink] ([topicsMut] has no content of its
    own: its operations appear in [events]), followed by the state of the
    world the methods act on. *)
Record multiTopicDecoupleSink := mkSink {
  pubsub_ : pubsub.Client;
  topics : gmap NamespacedName pubsub.Topic;
  brokerConfig : gmap NamespacedName config.Broker;
  logger : list zap.Entry;
  stopped : gset nat;
  events : list event
}.

(** [NewMultiTopicDecoupleSink]: an empty map; nothing logged, stopped or
    done yet. *)
Definition NewMultiTopicDecoupleSink
    (brokerConfig : gmap NamespacedName config.Broker)
    (client : pubsub.Client) : multiTopicDecoupleSink :=
  mkSink client ∅ brokerConfig [] ∅ [].

(** How a call ends: with a value, with an error, or in a run-time panic. *)
Inductive outcome (A : Type) :=
| Ok (a : A)
| Err (e : error)
| Panic.

Arguments Ok {A} a.
Arguments Err {A} e.
Arguments Panic {A}.

Definition M (A : Type) : Type :=
  multiTopicDecoupleSink -> outcome A * multiTopicDecoupleSink.

Definition ret {A} (a : A) : M A := fun m => (Ok a, m).
Definition fail {A} (e : error) : M A := fun m => (Err e, m).
Definition panic {A} : M A := fun m => (Panic, m).

Definition bind {A B} (c : M A) (k : A -> M B) : M B :=
  fun m =>
    match c m with
    | (Ok a, m') => k a m'
    | (Err e, m') => (Err e, m')
    | (Panic, m') => (Panic, m')
    end.

Declare Scope sink_scope.
Delimit Scope sink_scope with sink.

Notation "x <- c ;; k" := (bind c (fun x => k))
  (at level 100, c at next level, right associativity) : sink_scope.
Notation "c ;;; k" := (bind c (fun _ => k))
  (at level 100, right associativity) : sink_scope.

Open Scope sink_scope.

(** [defer release]: [release] runs when the body returns, however it
    returns. *)
Definition deferring {A} (release : multiTopicDecoupleSink -> multiTopicDecoupleSink)
    (body : M A) : M A :=
  fun m => let (r, m') := body m in (r, release m').

Definition emit (e : event) (m : multiTopicDecoupleSink) : multiTopicDecoupleSink :=
  mkSink (pubsub_ m) (topics m) (brokerConfig m) (logger m) (stopped m)
         (events m ++ [e]).

Definition step (e : event) : M unit := fun m => (Ok tt, emit e m).

Definition log (l : zap.Level) (msg : string) (fs : list zap.Field) : M unit :=
  fun m =>
    (Ok tt,
     mkSink (pubsub_ m) (topics m) (brokerConfig m)
            (logger m ++ [zap.mkEntry l msg fs]) (stopped m) (events m)).

(** [m.brokerConfig.GetBroker(namespace, name)] *)
Definition brokerConfig_GetBroker (broker : NamespacedName) : M (option config.Broker) :=
  fun m =>
    (Ok (config.GetBroker (brokerConfig m) (Namespace broker) (Name broker)),
     emit (EvGetBroker broker) m).

(** [m.topics[broker]] with the comma-ok form. *)
Definition topics_lookup (broker : NamespacedName) : M (option pubsub.Topic) :=
  fun m => (Ok (topics m !! broker), emit (EvRead broker) m).

(** [m.topics[broker]] as a plain index expression: nil for a missing key. *)
Definition topics_index (broker : NamespacedName) : M (option pubsub.Topic) :=
  topics_lookup broker.

(** [t.Stop()]; calling it through a nil pointer panics. *)
Definition Topic_Stop (t : option pubsub.Topic) : M unit :=
  match t with
  | None => panic
  | Some t =>
      fun m =>
        (Ok tt,
         emit (EvStop t)
           (mkSink (pubsub_ m) (topics m) (brokerConfig m) (logger m)
                   ({[pubsub.addr t]} ∪ stopped m) (events m)))
  end.

(** [m.pubsub.Topic(topicID)] *)
Definition pubsub_Topic (topicID : string) : M pubsub.Topic :=
  fun m =>
    let (t, c) := pubsub.Client_Topic (pubsub_ m) topicID in
    (Ok t,
     emit (EvOpen t)
       (mkSink c (topics m) (brokerConfig m) (logger m) (stopped m) (events m))).

(** [m.topics[broker] = topic] *)
Definition topics_store (broker : NamespacedName) (t : pubsub.Topic) : M unit :=
  fun m =>
    (Ok tt,
     emit (EvInstall broker t)
       (mkSink (pubsub_ m) (<[broker := t]> (topics m)) (brokerConfig m)
               (logger m) (stopped m) (events m))).

(** *** The methods *)

Definition getTopicIDForBroker (broker : NamespacedName) : M string :=
  found <- brokerConfig_GetBroker broker ;;
  match found with
  | None =>
      log zap.WarnLevel "config is not found for"
          [zap.String "broker" (types.String broker)] ;;;
      fail (Errorf "%q: %w" broker ErrNotFound)
  | Some brokerConfig =>
      if bool_decide (config.Broker_State brokerConfig ≠ config.State_READY) then
        log zap.DebugLevel "broker is not ready"
            [zap.AnyString "ns" (Namespace broker); zap.AnyName "broker" broker] ;;;
        fail (Errorf "%q: %w" broker ErrNotReady)
      else
        match config.DecoupleQueue brokerConfig with
        | None =>
            log zap.ErrorLevel
                "DecoupleQueue or topic missing for broker, this should NOT happen."
                [zap.AnyBroker "brokerConfig" brokerConfig] ;;;
            fail (Errorf "decouple queue of %q: %w" broker ErrIncomplete)
        | Some queue =>
            if bool_decide (config.Topic queue = "") then
              log zap.ErrorLevel
                  "DecoupleQueue or topic missing for broker, this should NOT happen."
                  [zap.AnyBroker "brokerConfig" brokerConfig] ;;;
              fail (Errorf "decouple queue of %q: %w" broker ErrIncomplete)
            else ret (config.Topic queue)
        end
  end.

Definition getExistingTopic (broker : NamespacedName) : M (option pubsub.Topic) :=
  step EvRLock ;;;
  deferring (emit EvRUnlock) (topics_lookup broker).

(** The tail of [updateTopicForBroker], reached when no handle is cached and
    after the old one has been stopped: lines 117 to 119. *)
Definition createTopic (broker : NamespacedName) (topicID : string) : M pubsub.Topic :=
  topic <- pubsub_Topic topicID ;;
  topics_store broker topic ;;;
  ret topic.

Definition updateTopicForBroker (broker : NamespacedName) : M pubsub.Topic :=
  step EvLock ;;;
  deferring (emit EvUnlock)
    (topicID <- getTopicIDForBroker broker ;;
     found <- topics_lookup broker ;;
     match found with
     | Some topic =>
         if bool_decide (pubsub.ID topic = topicID) then ret topic
         else
           old <- topics_index broker ;;
           Topic_Stop old ;;;
           createTopic broker topicID
     | None => createTopic broker topicID
     end).

Definition getTopicForBroker (broker : NamespacedName) : M pubsub.Topic :=
  topicID <- getTopicIDForBroker broker ;;
  existing <- getExistingTopic broker ;;
  match existing with
  | Some topic =>
      if bool_decide (pubsub.ID topic = topicID) then ret topic
      else updateTopicForBroker broker
  | None => updateTopicForBroker broker
  end.

(** The configuration is rewritten out of band: the sink sees [cfg] from now
    on. *)
Definition with_brokerConfig (cfg : gmap NamespacedName config.Broker)
    (m : multiTopicDecoupleSink) : multiTopicDecoupleSink :=
  mkSink (pubsub_ m) (topics m) cfg (logger m) (stopped m) (events m).

(** [Send].  The encoder and the transport are collaborators of the sink:
    [WritePubSubMessage] turns the event (with the tracing extension taken
    from the context) into a message or fails, and [PublishGet] is
    [topic.Publish(ctx, msg).Get(ctx)], which reports the error of the
    transport or of the context, if any; it is told whether the handle has
    been stopped. *)
Section Send.

Variables Context Event Message : Type.
Variable WritePubSubMessage : Context -> Event -> Message + error.
Variable PublishGet : Context -> pubsub.Topic -> bool -> Message -> option error.

Definition Topic_Publish (ctx : Context) (t : pubsub.Topic) (msg : Message) : M unit :=
  fun m =>
    let m' := emit (EvPublish t) m in
    match PublishGet ctx t (bool_decide (pubsub.addr t ∈ stopped m)) msg with
    | Some e => (Err e, m')
    | None => (Ok tt, m')
    end.

Definition Send (ctx : Context) (ns broker : string) (ev : Event) : M unit :=
  topic <- getTopicForBroker (mkNamespacedName ns broker) ;;
  match WritePubSubMessage ctx ev with
  | inr e => fail e
  | inl msg => Topic_Publish ctx topic msg
  end.

(** The operations [Send] adds after the lookup: one publish, when the
    lookup and the encoding succeed. *)
Definition publish_stage (ctx : Context) (ev : Event)
    (r : outcome pubsub.Topic) : list event :=
  match r, WritePubSubMessage ctx ev with
  | Ok t, inl _ => [EvPublish t]
  | _, _ => []
  end.

(** The sinks that arise: a sink is constructed, the configuration changes
    under it, and events are sent through it. *)
Inductive reachable : multiTopicDecoupleSink -> Prop :=
| reachable_new cfg client :
    reachable (NewMultiTopicDecoupleSink cfg client)
| reachable_config cfg m :
    reachable m -> reachable (with_brokerConfig cfg m)
| reachable_Send ctx ns broker ev m :
    reachable m -> reachable (Send ctx ns broker ev m).2.

End Send.

Arguments Topic_Publish {Context Message} PublishGet ctx t msg _.
Arguments Send {Context Event Message} WritePubSubMessage PublishGet ctx ns broker ev _.
Arguments reachable {Context Event Message} WritePubSubMessage PublishGet _.
Arguments publish_stage {Context Event Message} WritePubSubMessage ctx ev r.

(** ** Observations on a sequence of operations *)

Definition is_open (e : event) : bool :=
  match e with EvOpen _ => true | _ => false end.

Definition is_publish (e : event) : bool :=
  match e with EvPublish _ => true | _ => false end.

(** The operations on the handle map and its mutex. *)
Definition is_cache_op (e : event) : bool :=
  match e with
  | EvRLock | EvRUnlock | EvLock | EvUnlock | EvRead _ | EvInstall _ _ => true
  | _ => false
  end.

(** How many handles were made in a sequence of operations. *)
Definition opens (tr : list event) : nat := length (List.filter is_open tr).

(** Position of the first occurrence of an operation. *)
Fixpoint first_index (e : event) (tr : list event) : option nat :=
  match tr with
  | [] => None
  | e' :: tr' =>
      if bool_decide (e' = e) then Some 0
      else S <$> first_index e tr'
  end.

(** [e1] and [e2] both occur and [e1] occurs first. *)
Definition precedes (e1 e2 : event) (tr : list event) : bool :=
  match first_index e1 tr, first_index e2 tr with
  | Some i, Some j => bool_decide (i < j)
  | _, _ => false
  end.

(** The broker configuration routes [broker] to [topicID]: the entry is
    present, ready, has a decouple queue, and the queue's topic is
    [topicID], which is not empty. *)
Definition routed (cfg : gmap NamespacedName config.Broker)
    (broker : NamespacedName) (topicID : string) : Prop :=
  exists bc q,
    cfg !! broker = Some bc /\
    config.Broker_State bc = config.State_READY /\
    config.DecoupleQueue bc = Some q /\
    config.Topic q = topicID /\
    topicID <> "".

(** The entry lacks a decouple queue or the queue has an empty topic. *)
Definition incomplete (bc : config.Broker) : Prop :=
  config.DecoupleQueue bc = None \/
  exists q, config.DecoupleQueue bc = Some q /\ config.Topic q = "".

(** The three sentinels an error can wrap. *)
Definition sentinels : list error := [ErrNotFound; ErrNotReady; ErrIncomplete].

(** The part of a sequence of operations added after the first [n]. *)
Definition since (n : nat) (tr : list event) : list event := drop n tr.

(** The operations a call adds when run from [m] and ending in [m']. *)
Definition added (m m' : multiTopicDecoupleSink) : list event :=
  since (length (events m)) (events m').

(** The handles in the map are live, were made by the client, and no two
    brokers share one; everything stopped was made by the client. *)
Record cache_wf (m : multiTopicDecoupleSink) : Prop := mk_cache_wf {
  wf_made : forall b t, topics m !! b = Some t -> pubsub.addr t < pubsub.made (pubsub_ m);
  wf_live : forall b t, topics m !! b = Some t -> pubsub.addr t ∉ stopped m;
  wf_own : forall b1 b2 t1 t2,
      topics m !! b1 = Some t1 -> topics m !! b2 = Some t2 ->
      pubsub.addr t1 = pubsub.addr t2 -> b1 = b2;
  wf_stopped : forall a, a ∈ stopped m -> a < pubsub.made (pubsub_ m)
}.

(** A sink whose logger and record of operations are replaced. *)
Definition with_log (m : multiTopicDecoupleSink) (l : list zap.Entry)
    (tr : list event) : multiTopicDecoupleSink :=
  mkSink (pubsub_ m) (topics m) (brokerConfig m) l (stopped m) tr.

(** The handle the client makes next for [topicID]. *)
Definition next_topic (m : multiTopicDecoupleSink) (topicID : string) : pubsub.Topic :=
  pubsub.mkTopic (pubsub.made (pubsub_ m)) topicID.

(** The sink as the fast path of [getTopicForBroker] leaves it. *)
Definition after_fast_path (broker : NamespacedName) (m : multiTopicDecoupleSink)
    : multiTopicDecoupleSink :=
  with_log m (logger m)
    (events m ++ [EvGetBroker broker; EvRLock; EvRead broker; EvRUnlock]).

(** The map holds a handle for [broker] whose topic id is [topicID]. *)
Definition cached_current (m : multiTopicDecoupleSink) (broker : NamespacedName)
    (topicID : string) : bool :=
  match topics m !! broker with
  | Some t => bool_decide (pubsub.ID t = topicID)
  | None => false
  end.

(** ** Sample brokers, configurations and sinks *)

Definition sample_broker : NamespacedName := mkNamespacedName "ns" "b1".

Definition sample_config (st : config.State) (q : option config.Queue)
    : gmap NamespacedName config.Broker :=
  {[ sample_broker := config.mkBroker st q ]}.

(** The sample broker is ready and routed to [topicID]. *)
Definition ready_config (topicID : string) : gmap NamespacedName config.Broker :=
  sample_config config.State_READY (Some (config.mkQueue topicID)).

(** A sink just constructed. *)
Definition fresh_sink (cfg : gmap NamespacedName config.Broker) : multiTopicDecoupleSink :=
  NewMultiTopicDecoupleSink cfg (pubsub.mkClient 0).

(** [n] callers that all missed in the fast path run the slow path one after
    the other, as the exclusive lock makes them. *)
Fixpoint racing_updates (n : nat) (broker : NamespacedName)
    (m : multiTopicDecoupleSink)
    : list (outcome pubsub.Topic) * multiTopicDecoupleSink :=
  match n with
  | 0 => ([], m)
  | S k =>
      let (r, m1) := updateTopicForBroker broker m in
      let (rs, m2) := racing_updates k broker m1 in
      (r :: rs, m2)
  end.

(** The sink after one lookup of the sample broker, routed to [topicID],
    on a sink just constructed. *)
Definition used_sink (topicID : string) : multiTopicDecoupleSink :=
  (getTopicForBroker sample_broker (fresh_sink (ready_config topicID))).2.

(** A sample encoder and transport over one-point contexts, events and
    messages: the encoder fails on demand and the transport reports the
    given error. *)
Definition sample_encoder (fails : bool) (_ : unit) (_ : unit) : unit + error :=
  if fails then inr (Foreign "cannot encode") else inl tt.

Definition sample_transport (err : option error) (_ : unit) (_ : pubsub.Topic)
    (_ : bool) (_ : unit) : option error := err.

(** * Properties *)

(** ** The monad and the primitive operations *)

(** The sink after one acknowledged [Send] for the sample broker, routed to
    [topicID], on a sink just constructed. *)
Definition sent_sink (topicID : string) : multiTopicDecoupleSink :=
  (Send (sample_encoder false) (sample_transport None) tt "ns" "b1" tt
     (fresh_sink (ready_config topicID))).2.

(** The sink after a [Send] under topic t1, a change of the configuration
    to topic t2, and a second [Send]. *)
Definition rotated_sink : multiTopicDecoupleSink :=
  (Send (sample_encoder false) (sample_transport None) tt "ns" "b1" tt
     (with_brokerConfig (ready_config "t2") (sent_sink "t1"))).2.

(** ** Observations on whole histories *)

(** The handles stopped, made and published to in a sequence of operations,
    in order. *)
Definition stops (tr : list event) : list pubsub.Topic :=
  omap (fun e => match e with EvStop t => Some t | _ => None end) tr.

Definition opened (tr : list event) : list pubsub.Topic :=
  omap (fun e => match e with EvOpen t => Some t | _ => None end) tr.

Definition published (tr : list event) : list pubsub.Topic :=
  omap (fun e => match e with EvPublish t => Some t | _ => None end) tr.

(** What the record of operations of a sink tells about its handles: the
    map holds only handles that were made; a handle that was stopped is in
    the stopped set; a handle that was made is stopped or held by the map;
    no handle was stopped twice; and no handle was published to after it had
    been stopped. *)
Record history_wf (m : multiTopicDecoupleSink) : Prop := mk_history_wf {
  hist_held : forall b t, topics m !! b = Some t -> t ∈ opened (events m);
  hist_stopped : forall t, t ∈ stops (events m) -> pubsub.addr t ∈ stopped m;
  hist_opened : forall t, t ∈ opened (events m) ->
      pubsub.addr t ∈ stopped m \/ exists b, topics m !! b = Some t;
  hist_stop_once : NoDup (stops (events m));
  hist_publish_live : forall pre t post,
      events m = pre ++ EvPublish t :: post -> t ∉ stops pre
}.

(** The mutex [topicsMut] as the operations drive it. *)
Inductive lock_state := Unlocked | RLocked | Locked.

#[global] Instance lock_state_eq_dec : EqDecision lock_state.
Proof. solve_decision. Defined.

(** One operation under the locking discipline: the mutex is taken when
    free and released by its holder, the map is read under either lock,
    handles are made, stopped and installed under the exclusive lock only,
    and a publish holds no lock.  [None]: the operation breaks the
    discipline. *)
Definition lock_step (s : lock_state) (e : event) : option lock_state :=
  match e with
  | EvGetBroker _ => Some s
  | EvRLock => if bool_decide (s = Unlocked) then Some RLocked else None
  | EvRUnlock => if bool_decide (s = RLocked) then Some Unlocked else None
  | EvLock => if bool_decide (s = Unlocked) then Some Locked else None
  | EvUnlock => if bool_decide (s = Locked) then Some Unlocked else None
  | EvRead _ => if bool_decide (s = Unlocked) then None else Some s
  | EvStop _ | EvOpen _ | EvInstall _ _ =>
      if bool_decide (s = Locked) then Some s else None
  | EvPublish _ => if bool_decide (s = Unlocked) then Some s else None
  end.

Fixpoint lock_run (s : lock_state) (tr : list event) : option lock_state :=
  match tr with
  | [] => Some s
  | e :: tr' =>
      match lock_step s e with
      | Some s' => lock_run s' tr'
      | None => None
      end
  end.

Ltac unfold_sink :=
  unfold getTopicForBroker, updateTopicForBroker, getExistingTopic,
    getTopicIDForBroker, createTopic, topics_index, topics_lookup,
    topics_store, pubsub_Topic, Topic_Stop, brokerConfig_GetBroker,
    config.GetBroker, deferring, step, log, bind, ret, fail, panic, emit,
    pubsub.Client_Topic in *.

Ltac decide_events :=
  repeat first
    [ rewrite bool_decide_true by done
    | rewrite bool_decide_false by done
    | progress simpl ].

Lemma name_eta (b : NamespacedName) :
  mkNamespacedName (Namespace b) (Name b) = b.
Proof. by destruct b. Qed.

Lemma added_app m m' tr : events m' = events m ++ tr -> added m m' = tr.
Proof. intros H. unfold added, since. rewrite H. apply drop_app_length. Qed.

Lemma opens_app tr1 tr2 : opens (tr1 ++ tr2) = opens tr1 + opens tr2.
Proof. unfold opens. by rewrite List.filter_app, length_app. Qed.

Lemma pubsub_Topic_total topicID m :
  exists t m', pubsub_Topic topicID m = (Ok t, m') /\ pubsub.ID t = topicID.
Proof. unfold_sink. simpl. eauto. Qed.

(** ** [getTopicIDForBroker] *)

Lemma getTopicIDForBroker_absent broker m :
  brokerConfig m !! broker = None ->
  getTopicIDForBroker broker m =
    (Err (Errorf "%q: %w" broker ErrNotFound),
     with_log m
       (logger m ++ [zap.mkEntry zap.WarnLevel "config is not found for"
                       [zap.String "broker" (types.String broker)]])
       (events m ++ [EvGetBroker broker])).
Proof.
  intros H. unfold_sink. simpl. rewrite name_eta, H. reflexivity.
Qed.

Lemma getTopicIDForBroker_not_ready broker m bc :
  brokerConfig m !! broker = Some bc ->
  config.Broker_State bc <> config.State_READY ->
  getTopicIDForBroker broker m =
    (Err (Errorf "%q: %w" broker ErrNotReady),
     with_log m
       (logger m ++ [zap.mkEntry zap.DebugLevel "broker is not ready"
                       [zap.AnyString "ns" (Namespace broker);
                        zap.AnyName "broker" broker]])
       (events m ++ [EvGetBroker broker])).
Proof.
  intros H Hs. unfold_sink. simpl. rewrite name_eta, H.
  rewrite bool_decide_true by done. reflexivity.
Qed.

Lemma getTopicIDForBroker_incomplete broker m bc :
  brokerConfig m !! broker = Some bc ->
  config.Broker_State bc = config.State_READY ->
  incomplete bc ->
  getTopicIDForBroker broker m =
    (Err (Errorf "decouple queue of %q: %w" broker ErrIncomplete),
     with_log m
       (logger m ++ [zap.mkEntry zap.ErrorLevel
                       "DecoupleQueue or topic missing for broker, this should NOT happen."
                       [zap.AnyBroker "brokerConfig" bc]])
       (events m ++ [EvGetBroker broker])).
Proof.
  intros H Hs Hi. unfold_sink. simpl. rewrite name_eta, H.
  rewrite bool_decide_false by (intros Hn; by apply Hn).
  destruct Hi as [Hq | (q & Hq & Ht)]; rewrite Hq; [reflexivity |].
  rewrite bool_decide_true by done. reflexivity.
Qed.

Lemma getTopicIDForBroker_routed broker m topicID :
  routed (brokerConfig m) broker topicID ->
  getTopicIDForBroker broker m =
    (Ok topicID, with_log m (logger m) (events m ++ [EvGetBroker broker])).
Proof.
  intros (bc & q & H & Hs & Hq & Ht & Hne). unfold_sink. simpl.
  rewrite name_eta, H.
  rewrite bool_decide_false by (intros Hn; by apply Hn).
  rewrite Hq, Ht. rewrite bool_decide_false by done. reflexivity.
Qed.

(** The four cases are all there are. *)
Lemma route_cases (cfg : gmap NamespacedName config.Broker) broker :
  cfg !! broker = None \/
  (exists bc, cfg !! broker = Some bc /\
              config.Broker_State bc <> config.State_READY) \/
  (exists bc, cfg !! broker = Some bc /\
              config.Broker_State bc = config.State_READY /\ incomplete bc) \/
  (exists topicID, routed cfg broker topicID).
Proof.
  destruct (cfg !! broker) as [bc|] eqn:H; [| by left].
  right. destruct (decide (config.Broker_State bc = config.State_READY)) as [Hs|Hs];
    [| left; eauto].
  right. destruct (config.DecoupleQueue bc) as [q|] eqn:Hq.
  - destruct (decide (config.Topic q = "")) as [Ht|Ht].
    + left. exists bc. repeat split; try done. right. eauto.
    + right. exists (config.Topic q), bc, q. done.
  - left. exists bc. repeat split; try done. by left.
Qed.

(** Whatever the result, resolving the route only reads the configuration
    and writes to the logger; it never panics. *)
Lemma getTopicIDForBroker_frame broker m :
  exists r l,
    getTopicIDForBroker broker m =
      (r, with_log m l (events m ++ [EvGetBroker broker])) /\
    r <> Panic.
Proof.
  destruct (route_cases (brokerConfig m) broker)
    as [H | [(bc & H & Hs) | [(bc & H & Hs & Hi) | (id & H)]]].
  - rewrite (getTopicIDForBroker_absent _ _ H). eauto.
  - rewrite (getTopicIDForBroker_not_ready _ _ _ H Hs). eauto.
  - rewrite (getTopicIDForBroker_incomplete _ _ _ H Hs Hi). eauto.
  - rewrite (getTopicIDForBroker_routed _ _ _ H). eauto.
Qed.

(** The result depends on the configuration only. *)
Lemma getTopicIDForBroker_config broker m1 m2 :
  brokerConfig m1 = brokerConfig m2 ->
  (getTopicIDForBroker broker m1).1 = (getTopicIDForBroker broker m2).1.
Proof.
  intros Heq.
  destruct (route_cases (brokerConfig m1) broker)
    as [H | [(bc & H & Hs) | [(bc & H & Hs & Hi) | (id & H)]]].
  - rewrite (getTopicIDForBroker_absent _ _ H).
    rewrite Heq in H. by rewrite (getTopicIDForBroker_absent _ _ H).
  - rewrite (getTopicIDForBroker_not_ready _ _ _ H Hs).
    rewrite Heq in H. by rewrite (getTopicIDForBroker_not_ready _ _ _ H Hs).
  - rewrite (getTopicIDForBroker_incomplete _ _ _ H Hs Hi).
    rewrite Heq in H. by rewrite (getTopicIDForBroker_incomplete _ _ _ H Hs Hi).
  - rewrite (getTopicIDForBroker_routed _ _ _ H).
    rewrite Heq in H. by rewrite (getTopicIDForBroker_routed _ _ _ H).
Qed.

(** Resolution succeeds exactly on routed brokers. *)
Lemma getTopicIDForBroker_Ok broker m topicID :
  (getTopicIDForBroker broker m).1 = Ok topicID <->
  routed (brokerConfig m) broker topicID.
Proof.
  split.
  - destruct (route_cases (brokerConfig m) broker)
      as [H | [(bc & H & Hs) | [(bc & H & Hs & Hi) | (id & H)]]].
    + by rewrite (getTopicIDForBroker_absent _ _ H).
    + by rewrite (getTopicIDForBroker_not_ready _ _ _ H Hs).
    + by rewrite (getTopicIDForBroker_incomplete _ _ _ H Hs Hi).
    + rewrite (getTopicIDForBroker_routed _ _ _ H). simpl. by intros [= <-].
  - intros H. by rewrite (getTopicIDForBroker_routed _ _ _ H).
Qed.

(** Every error of the resolution wraps one sentinel, next to the broker. *)
Lemma getTopicIDForBroker_Err broker m e :
  (getTopicIDForBroker broker m).1 = Err e ->
  exists format s, e = Errorf format broker s /\ s ∈ sentinels.
Proof.
  destruct (route_cases (brokerConfig m) broker)
    as [H | [(bc & H & Hs) | [(bc & H & Hs & Hi) | (id & H)]]].
  - rewrite (getTopicIDForBroker_absent _ _ H). simpl. intros [= <-].
    eexists _, _. split; [done |]. unfold sentinels. set_solver.
  - rewrite (getTopicIDForBroker_not_ready _ _ _ H Hs). simpl. intros [= <-].
    eexists _, _. split; [done |]. unfold sentinels. set_solver.
  - rewrite (getTopicIDForBroker_incomplete _ _ _ H Hs Hi). simpl. intros [= <-].
    eexists _, _. split; [done |]. unfold sentinels. set_solver.
  - by rewrite (getTopicIDForBroker_routed _ _ _ H).
Qed.

(** ** [getExistingTopic] *)

Lemma getExistingTopic_run broker m :
  getExistingTopic broker m =
    (Ok (topics m !! broker),
     with_log m (logger m) (events m ++ [EvRLock; EvRead broker; EvRUnlock])).
Proof.
  unfold_sink. unfold with_log. simpl. by rewrite <- !app_assoc.
Qed.

(** ** [updateTopicForBroker] *)

Lemma updateTopicForBroker_error broker m e :
  (getTopicIDForBroker broker m).1 = Err e ->
  exists l,
    updateTopicForBroker broker m =
      (Err e, with_log m l (events m ++ [EvLock; EvGetBroker broker; EvUnlock])).
Proof.
  intros He.
  destruct (getTopicIDForBroker_frame broker (emit EvLock m)) as (r & l & Hrun & _).
  assert (r = Err e) as ->.
  { rewrite <- He, (getTopicIDForBroker_config broker m (emit EvLock m)) by done.
    by rewrite Hrun. }
  exists l. unfold updateTopicForBroker, deferring, step, bind.
  rewrite Hrun. unfold with_log, emit. simpl. by rewrite <- !app_assoc.
Qed.

Lemma updateTopicForBroker_current broker m topicID topic :
  routed (brokerConfig m) broker topicID ->
  topics m !! broker = Some topic ->
  pubsub.ID topic = topicID ->
  updateTopicForBroker broker m =
    (Ok topic,
     with_log m (logger m)
       (events m ++ [EvLock; EvGetBroker broker; EvRead broker; EvUnlock])).
Proof.
  intros Hr Ht Hid. unfold updateTopicForBroker, deferring, step, bind.
  rewrite (getTopicIDForBroker_routed broker (emit EvLock m) topicID) by done.
  unfold_sink. unfold with_log. simpl. rewrite Ht.
  rewrite bool_decide_true by done. simpl. by rewrite <- !app_assoc.
Qed.

Lemma updateTopicForBroker_stale broker m topicID old :
  routed (brokerConfig m) broker topicID ->
  topics m !! broker = Some old ->
  pubsub.ID old <> topicID ->
  updateTopicForBroker broker m =
    (Ok (next_topic m topicID),
     mkSink (pubsub.mkClient (S (pubsub.made (pubsub_ m))))
            (<[broker := next_topic m topicID]> (topics m))
            (brokerConfig m) (logger m)
            ({[pubsub.addr old]} ∪ stopped m)
            (events m ++
             [EvLock; EvGetBroker broker; EvRead broker; EvRead broker;
              EvStop old; EvOpen (next_topic m topicID);
              EvInstall broker (next_topic m topicID); EvUnlock])).
Proof.
  intros Hr Ht Hid. unfold updateTopicForBroker, deferring, step, bind.
  rewrite (getTopicIDForBroker_routed broker (emit EvLock m) topicID) by done.
  unfold_sink. unfold with_log, next_topic. simpl. rewrite Ht.
  rewrite bool_decide_false by done. simpl. rewrite Ht. simpl.
  by rewrite <- !app_assoc.
Qed.

Lemma updateTopicForBroker_missing broker m topicID :
  routed (brokerConfig m) broker topicID ->
  topics m !! broker = None ->
  updateTopicForBroker broker m =
    (Ok (next_topic m topicID),
     mkSink (pubsub.mkClient (S (pubsub.made (pubsub_ m))))
            (<[broker := next_topic m topicID]> (topics m))
            (brokerConfig m) (logger m) (stopped m)
            (events m ++
             [EvLock; EvGetBroker broker; EvRead broker;
              EvOpen (next_topic m topicID);
              EvInstall broker (next_topic m topicID); EvUnlock])).
Proof.
  intros Hr Ht. unfold updateTopicForBroker, deferring, step, bind.
  rewrite (getTopicIDForBroker_routed broker (emit EvLock m) topicID) by done.
  unfold_sink. unfold with_log, next_topic. simpl. rewrite Ht. simpl.
  by rewrite <- !app_assoc.
Qed.

(** A broker is not routed exactly when it is absent, not ready, or
    incomplete. *)
Lemma unrouted_iff (cfg : gmap NamespacedName config.Broker) broker :
  (forall topicID, ~ routed cfg broker topicID) <->
  cfg !! broker = None \/
  (exists bc, cfg !! broker = Some bc /\
              config.Broker_State bc <> config.State_READY) \/
  (exists bc, cfg !! broker = Some bc /\
              config.Broker_State bc = config.State_READY /\ incomplete bc).
Proof.
  split.
  - intros Hn. destruct (route_cases cfg broker) as [H | [H | [H | [id H]]]];
      [by left | right; by left | right; by right | by destruct (Hn id)].
  - intros [H | [(bc & H & Hs) | (bc & H & Hs & Hi)]]
      id (bc' & q & H' & Hs' & Hq & Ht & Hne); [congruence | congruence |].
    assert (bc' = bc) as -> by congruence.
    destruct Hi as [Hi | (q' & Hi & Hi')]; congruence.
Qed.

Lemma unrouted_error broker m :
  (forall topicID, ~ routed (brokerConfig m) broker topicID) ->
  exists e, (getTopicIDForBroker broker m).1 = Err e.
Proof.
  intros Hn.
  destruct (getTopicIDForBroker broker m).1 as [id | e |] eqn:Hr; [| eauto |].
  - apply getTopicIDForBroker_Ok in Hr. by destruct (Hn id).
  - destruct (getTopicIDForBroker_frame broker m) as (r & l & Hrun & Hp).
    rewrite Hrun in Hr. simpl in Hr. by subst r.
Qed.

(** C1, as amended: when [updateTopicForBroker] replaces the cached handle
    of a broker because its topic id differs from the route re-read under
    the exclusive lock, it first stops the old handle and only then makes
    the new handle and installs it in the map; both happen between taking
    and releasing the lock, and when the lock is released the map holds the
    new handle and the old one has been stopped.  For every replacement the
    close of the old handle precedes the install of the new one. *)
Theorem updateTopicForBroker_stops_then_installs broker m topicID old :
  routed (brokerConfig m) broker topicID ->
  topics m !! broker = Some old ->
  pubsub.ID old <> topicID ->
  exists new m',
    updateTopicForBroker broker m = (Ok new, m') /\
    pubsub.ID new = topicID /\
    topics m' = <[broker := new]> (topics m) /\
    stopped m' = {[pubsub.addr old]} ∪ stopped m /\
    added m m' =
      [EvLock; EvGetBroker broker; EvRead broker; EvRead broker;
       EvStop old; EvOpen new; EvInstall broker new; EvUnlock] /\
    precedes EvLock (EvStop old) (added m m') = true /\
    precedes (EvStop old) (EvInstall broker new) (added m m') = true /\
    precedes (EvInstall broker new) EvUnlock (added m m') = true /\
    precedes (EvInstall broker new) (EvStop old) (added m m') = false.
Proof.
  intros Hr Ht Hid.
  exists (next_topic m topicID), (updateTopicForBroker broker m).2.
  rewrite (updateTopicForBroker_stale _ _ _ _ Hr Ht Hid).
  repeat (split; [done |]).
  erewrite added_app by reflexivity.
  split; [done |].
  unfold precedes. decide_events. done.
Qed.

(** C2: in the slow path, when under the exclusive lock the route is re-read
    as ready with a topic id and the map already holds a handle for the
    broker whose topic id equals it, that handle is returned and no handle
    is made: the client, the map and the stopped handles are as before, and
    the call only locks, reads the configuration, reads the map and
    unlocks. *)
Theorem updateTopicForBroker_double_check broker m topicID topic :
  routed (brokerConfig m) broker topicID ->
  topics m !! broker = Some topic ->
  pubsub.ID topic = topicID ->
  exists m',
    updateTopicForBroker broker m = (Ok topic, m') /\
    opens (added m m') = 0 /\
    pubsub_ m' = pubsub_ m /\
    topics m' = topics m /\
    stopped m' = stopped m /\
    added m m' = [EvLock; EvGetBroker broker; EvRead broker; EvUnlock].
Proof.
  intros Hr Ht Hid. eexists.
  split; [by apply (updateTopicForBroker_current _ _ topicID) |].
  erewrite added_app by reflexivity. done.
Qed.

Lemma updateTopicForBroker_unrouted broker m :
  (forall topicID, ~ routed (brokerConfig m) broker topicID) ->
  exists e m',
    updateTopicForBroker broker m = (Err e, m') /\
    (getTopicIDForBroker broker m).1 = Err e /\
    topics m' = topics m /\ pubsub_ m' = pubsub_ m /\ stopped m' = stopped m /\
    added m m' = [EvLock; EvGetBroker broker; EvUnlock].
Proof.
  intros Hn. destruct (unrouted_error _ _ Hn) as [e He].
  destruct (updateTopicForBroker_error _ _ _ He) as [l Hrun].
  eexists _, _. split; [exact Hrun |]. split; [done |].
  repeat (split; [done |]). by erewrite added_app by reflexivity.
Qed.

(** C3: in the slow path, when resolving the route under the exclusive lock
    fails (the broker is absent, not ready, or has no topic id), the call
    returns that error, which wraps one of the three sentinels, and leaves
    the map, the client and the stopped handles exactly as they were; it
    only locks, reads the configuration and unlocks. *)
Theorem updateTopicForBroker_error_atomic broker m :
  (forall topicID, ~ routed (brokerConfig m) broker topicID) ->
  exists e m',
    updateTopicForBroker broker m = (Err e, m') /\
    (getTopicIDForBroker broker m).1 = Err e /\
    (exists format s, e = Errorf format broker s /\ s ∈ sentinels) /\
    topics m' = topics m /\
    pubsub_ m' = pubsub_ m /\
    stopped m' = stopped m /\
    added m m' = [EvLock; EvGetBroker broker; EvUnlock].
Proof.
  intros Hn.
  destruct (updateTopicForBroker_unrouted _ _ Hn)
    as (e & m' & Hrun & He & Ht & Hp & Hs & Ha).
  exists e, m'. repeat (split; [done |]).
  split; [by apply getTopicIDForBroker_Err in He |]. done.
Qed.

(** ** [getTopicForBroker] *)

Lemma getTopicForBroker_error broker m e :
  (getTopicIDForBroker broker m).1 = Err e ->
  exists l,
    getTopicForBroker broker m =
      (Err e, with_log m l (events m ++ [EvGetBroker broker])).
Proof.
  intros He.
  destruct (getTopicIDForBroker_frame broker m) as (r & l & Hrun & _).
  rewrite Hrun in He. simpl in He. subst r.
  exists l. unfold getTopicForBroker, bind. by rewrite Hrun.
Qed.

Lemma getTopicForBroker_hit broker m topicID topic :
  routed (brokerConfig m) broker topicID ->
  topics m !! broker = Some topic ->
  pubsub.ID topic = topicID ->
  getTopicForBroker broker m = (Ok topic, after_fast_path broker m).
Proof.
  intros Hr Ht Hid. unfold getTopicForBroker, bind.
  rewrite (getTopicIDForBroker_routed _ _ _ Hr), getExistingTopic_run.
  simpl. rewrite Ht. rewrite bool_decide_true by done.
  unfold ret, after_fast_path, with_log. simpl. by rewrite <- !app_assoc.
Qed.

Lemma getTopicForBroker_slow broker m topicID :
  routed (brokerConfig m) broker topicID ->
  cached_current m broker topicID = false ->
  getTopicForBroker broker m =
    updateTopicForBroker broker (after_fast_path broker m).
Proof.
  intros Hr Hc. unfold getTopicForBroker, bind.
  rewrite (getTopicIDForBroker_routed _ _ _ Hr), getExistingTopic_run.
  unfold cached_current in Hc. simpl.
  replace (with_log (with_log m (logger m) (events m ++ [EvGetBroker broker]))
             (logger m)
             ((events m ++ [EvGetBroker broker]) ++ [EvRLock; EvRead broker; EvRUnlock]))
    with (after_fast_path broker m)
    by (unfold after_fast_path, with_log; simpl; by rewrite <- !app_assoc).
  destruct (topics m !! broker) as [t|]; [| done].
  by rewrite Hc.
Qed.

(** A successful lookup, in full: the handle returned is bound to the routed
    topic id and is the one the map holds afterwards; a handle is made only
    when the map held none that was current. *)
Lemma getTopicForBroker_routed broker m topicID :
  routed (brokerConfig m) broker topicID ->
  exists topic m',
    getTopicForBroker broker m = (Ok topic, m') /\
    pubsub.ID topic = topicID /\
    topics m' !! broker = Some topic /\
    brokerConfig m' = brokerConfig m /\
    (forall b, b <> broker -> topics m' !! b = topics m !! b) /\
    opens (added m m') = (if cached_current m broker topicID then 0 else 1) /\
    (cached_current m broker topicID = true ->
       topics m' = topics m /\ stopped m' = stopped m /\ pubsub_ m' = pubsub_ m).
Proof.
  intros Hr. destruct (cached_current m broker topicID) eqn:Hc.
  - unfold cached_current in Hc.
    destruct (topics m !! broker) as [t|] eqn:Ht; [| done].
    apply bool_decide_eq_true in Hc.
    exists t, (after_fast_path broker m).
    rewrite (getTopicForBroker_hit _ _ _ _ Hr Ht Hc).
    unfold after_fast_path. erewrite added_app by reflexivity. done.
  - rewrite (getTopicForBroker_slow _ _ _ Hr Hc).
    assert (routed (brokerConfig (after_fast_path broker m)) broker topicID) as Hr'
      by done.
    unfold cached_current in Hc.
    destruct (topics m !! broker) as [old|] eqn:Ht.
    + apply bool_decide_eq_false in Hc.
      rewrite (updateTopicForBroker_stale _ _ _ old Hr') by done.
      eexists _, _. split; [reflexivity |]. simpl.
      split; [done |]. split; [apply lookup_insert_eq |].
      split; [done |]. split; [intros b Hb; by apply lookup_insert_ne |].
      split; [| done].
      unfold added, since. simpl. rewrite <- app_assoc, drop_app_length. reflexivity.
    + rewrite (updateTopicForBroker_missing _ _ _ Hr') by done.
      eexists _, _. split; [reflexivity |]. simpl.
      split; [done |]. split; [apply lookup_insert_eq |].
      split; [done |]. split; [intros b Hb; by apply lookup_insert_ne |].
      split; [| done].
      unfold added, since. simpl. rewrite <- app_assoc, drop_app_length. reflexivity.
Qed.

(** A failed lookup, in full. *)
Lemma getTopicForBroker_unrouted broker m :
  (forall topicID, ~ routed (brokerConfig m) broker topicID) ->
  exists e m',
    getTopicForBroker broker m = (Err e, m') /\
    (getTopicIDForBroker broker m).1 = Err e /\
    topics m' = topics m /\ pubsub_ m' = pubsub_ m /\ stopped m' = stopped m /\
    brokerConfig m' = brokerConfig m /\
    added m m' = [EvGetBroker broker].
Proof.
  intros Hn. destruct (unrouted_error _ _ Hn) as [e He].
  destruct (getTopicForBroker_error _ _ _ He) as [l Hrun].
  eexists _, _. split; [exact Hrun |]. split; [done |].
  repeat (split; [done |]). by erewrite added_app by reflexivity.
Qed.

Lemma routed_dec (cfg : gmap NamespacedName config.Broker) broker :
  (exists topicID, routed cfg broker topicID) \/
  (forall topicID, ~ routed cfg broker topicID).
Proof.
  destruct (route_cases cfg broker)
    as [H | [(bc & H & Hs) | [(bc & H & Hs & Hi) | (id & H)]]].
  - right. intros id (bc & q & H' & _). congruence.
  - right. intros id (bc' & q & H' & Hs' & _). congruence.
  - right. intros id (bc' & q & H' & Hs' & Hq & Ht & Hne).
    assert (bc' = bc) as -> by congruence.
    destruct Hi as [Hi | (q' & Hi & Hi')]; congruence.
  - left. eauto.
Qed.

Lemma sentinel_wrapped format broker s :
  s ∈ sentinels ->
  List.filter (errors_Is (Errorf format broker s)) sentinels = [s].
Proof.
  unfold sentinels. intros Hs.
  repeat (apply elem_of_cons in Hs as [-> | Hs]; [reflexivity |]).
  by apply elem_of_nil in Hs.
Qed.

(** C4, as amended: two calls of [getTopicForBroker] in a row for a broker
    that the unchanged configuration routes (ready, with a topic id) return
    the identical handle, bound to that topic id.  The second call makes no
    handle.  Across the two calls the client makes exactly one handle when
    the map held no handle with the routed topic id for the broker before
    the first call, and none when it did. *)
Theorem getTopicForBroker_twice broker m topicID :
  routed (brokerConfig m) broker topicID ->
  exists topic m1 m2,
    getTopicForBroker broker m = (Ok topic, m1) /\
    brokerConfig m1 = brokerConfig m /\
    getTopicForBroker broker m1 = (Ok topic, m2) /\
    pubsub.ID topic = topicID /\
    opens (added m1 m2) = 0 /\
    opens (added m m1) + opens (added m1 m2) =
      (if cached_current m broker topicID then 0 else 1).
Proof.
  intros Hr.
  destruct (getTopicForBroker_routed _ _ _ Hr)
    as (topic & m1 & Hrun1 & Hid & Ht1 & Hcfg & _ & Hopens & _).
  assert (routed (brokerConfig m1) broker topicID) as Hr1 by by rewrite Hcfg.
  exists topic, m1, (after_fast_path broker m1).
  rewrite (getTopicForBroker_hit _ _ _ _ Hr1 Ht1 Hid).
  assert (opens (added m1 (after_fast_path broker m1)) = 0) as Hhit.
  { unfold after_fast_path. by erewrite added_app by reflexivity. }
  rewrite Hhit, Hopens. repeat (split; [done |]). lia.
Qed.

(** C10: making a handle has no error result, so every error returned by
    the lookup, [getTopicForBroker], and by its slow path run from any
    state, is an error of the route resolution: it wraps exactly one of
    [ErrNotFound], [ErrNotReady] and [ErrIncomplete]; no other kind of error
    can come out of the lookup, and it does not panic. *)
Theorem lookup_errors_wrap_sentinels broker m e m' :
  getTopicForBroker broker m = (Err e, m') \/
  updateTopicForBroker broker m = (Err e, m') ->
  (exists format s,
     e = Errorf format broker s /\ s ∈ sentinels /\
     List.filter (errors_Is e) sentinels = [s]) /\
  (forall topicID m0, exists t, (pubsub_Topic topicID m0).1 = Ok t) /\
  (getTopicForBroker broker m).1 <> Panic /\
  (updateTopicForBroker broker m).1 <> Panic.
Proof.
  intros Hrun.
  assert ((getTopicIDForBroker broker m).1 = Err e) as He.
  { destruct (routed_dec (brokerConfig m) broker) as [[id Hr] | Hn].
    - exfalso. destruct Hrun as [Hrun | Hrun].
      + destruct (getTopicForBroker_routed _ _ _ Hr) as (? & ? & Hrun' & _).
        congruence.
      + destruct (topics m !! broker) as [t|] eqn:Ht.
        * destruct (decide (pubsub.ID t = id)) as [Hid|Hid].
          -- rewrite (updateTopicForBroker_current _ _ _ _ Hr Ht Hid) in Hrun.
             congruence.
          -- rewrite (updateTopicForBroker_stale _ _ _ _ Hr Ht Hid) in Hrun.
             congruence.
        * rewrite (updateTopicForBroker_missing _ _ _ Hr Ht) in Hrun.
          congruence.
    - destruct Hrun as [Hrun | Hrun].
      + destruct (getTopicForBroker_unrouted _ _ Hn) as (e' & ? & Hrun' & He' & _).
        congruence.
      + destruct (updateTopicForBroker_unrouted _ _ Hn) as (e' & ? & Hrun' & He' & _).
        congruence. }
  split.
  { destruct (getTopicIDForBroker_Err _ _ _ He) as (format & s & -> & Hs).
    exists format, s. split; [done |]. split; [done |].
    by apply sentinel_wrapped. }
  split.
  { intros id m0. destruct (pubsub_Topic_total id m0) as (t & m1 & Hrun' & _).
    exists t. by rewrite Hrun'. }
  destruct (getTopicForBroker_error _ _ _ He) as [l1 H1].
  destruct (updateTopicForBroker_error _ _ _ He) as [l2 H2].
  rewrite H1, H2. done.
Qed.

(** ** The invariant of the handle map *)

Lemma cache_wf_with_log m l tr : cache_wf m -> cache_wf (with_log m l tr).
Proof. intros [H1 H2 H3 H4]. by constructor. Qed.

Lemma cache_wf_new cfg client : cache_wf (NewMultiTopicDecoupleSink cfg client).
Proof.
  constructor; simpl.
  - intros b t H. by rewrite lookup_empty in H.
  - intros b t H. by rewrite lookup_empty in H.
  - intros b1 b2 t1 t2 H. by rewrite lookup_empty in H.
  - intros a H. by apply not_elem_of_empty in H.
Qed.

(** Installing the handle the client makes next keeps the invariant, when
    the handle it replaces, if any, is the only one newly stopped. *)
Lemma cache_wf_install m broker topicID l tr (st : gset nat) :
  cache_wf m ->
  (topics m !! broker = None /\ st = stopped m) \/
  (exists old, topics m !! broker = Some old /\
               st = {[pubsub.addr old]} ∪ stopped m) ->
  cache_wf
    (mkSink (pubsub.mkClient (S (pubsub.made (pubsub_ m))))
            (<[broker := next_topic m topicID]> (topics m))
            (brokerConfig m) l st tr).
Proof.
  intros [Hmade Hlive Hown Hstopped] Hst.
  assert (forall a, a ∈ st -> a < pubsub.made (pubsub_ m)) as Hst_made.
  { intros a Ha. destruct Hst as [[_ ->] | (old & Hold & ->)]; [by apply Hstopped |].
    apply elem_of_union in Ha as [Ha | Ha]; [| by apply Hstopped].
    apply elem_of_singleton in Ha as ->. by eapply Hmade. }
  constructor; simpl.
  - intros b t. rewrite lookup_insert. case_decide.
    + intros [= <-]. simpl. lia.
    + intros H'. apply Hmade in H'. lia.
  - intros b t. rewrite lookup_insert. case_decide as Hb.
    + intros [= <-] Hin. apply Hst_made in Hin. simpl in Hin. lia.
    + intros H' Hin. destruct Hst as [[_ ->] | (old & Hold & ->)];
        [by eapply Hlive |].
      apply elem_of_union in Hin as [Hin | Hin]; [| by eapply Hlive].
      apply elem_of_singleton in Hin. apply Hb. by eapply Hown.
  - intros b1 b2 t1 t2. rewrite !lookup_insert. repeat case_decide; subst.
    + done.
    + intros [= <-] H2 Heq. apply Hmade in H2. simpl in Heq. lia.
    + intros H1 [= <-] Heq. apply Hmade in H1. simpl in Heq. lia.
    + apply Hown.
  - intros a Ha. apply Hst_made in Ha. lia.
Qed.

Lemma updateTopicForBroker_wf broker m :
  cache_wf m -> cache_wf (updateTopicForBroker broker m).2.
Proof.
  intros Hwf. destruct (routed_dec (brokerConfig m) broker) as [[id Hr] | Hn].
  - destruct (topics m !! broker) as [t|] eqn:Ht.
    + destruct (decide (pubsub.ID t = id)) as [Hid|Hid].
      * rewrite (updateTopicForBroker_current _ _ _ _ Hr Ht Hid).
        by apply cache_wf_with_log.
      * rewrite (updateTopicForBroker_stale _ _ _ _ Hr Ht Hid).
        apply cache_wf_install; eauto.
    + rewrite (updateTopicForBroker_missing _ _ _ Hr Ht).
      apply cache_wf_install; eauto.
  - destruct (unrouted_error _ _ Hn) as [e He].
    destruct (updateTopicForBroker_error _ _ _ He) as [l ->].
    by apply cache_wf_with_log.
Qed.

Lemma getTopicForBroker_wf broker m :
  cache_wf m -> cache_wf (getTopicForBroker broker m).2.
Proof.
  intros Hwf. destruct (routed_dec (brokerConfig m) broker) as [[id Hr] | Hn].
  - destruct (cached_current m broker id) eqn:Hc.
    + unfold cached_current in Hc.
      destruct (topics m !! broker) as [t|] eqn:Ht; [| done].
      apply bool_decide_eq_true in Hc.
      rewrite (getTopicForBroker_hit _ _ _ _ Hr Ht Hc).
      by apply cache_wf_with_log.
    + rewrite (getTopicForBroker_slow _ _ _ Hr Hc).
      apply updateTopicForBroker_wf. by apply cache_wf_with_log.
  - destruct (unrouted_error _ _ Hn) as [e He].
    destruct (getTopicForBroker_error _ _ _ He) as [l ->].
    by apply cache_wf_with_log.
Qed.

(** Every call adds to the record of operations, and the lookup starts by
    reading the configuration. *)
Lemma updateTopicForBroker_grows broker m :
  exists tr, events (updateTopicForBroker broker m).2 = events m ++ tr.
Proof.
  destruct (routed_dec (brokerConfig m) broker) as [[id Hr] | Hn].
  - destruct (topics m !! broker) as [t|] eqn:Ht.
    + destruct (decide (pubsub.ID t = id)) as [Hid|Hid].
      * rewrite (updateTopicForBroker_current _ _ _ _ Hr Ht Hid). simpl. eauto.
      * rewrite (updateTopicForBroker_stale _ _ _ _ Hr Ht Hid). simpl. eauto.
    + rewrite (updateTopicForBroker_missing _ _ _ Hr Ht). simpl. eauto.
  - destruct (unrouted_error _ _ Hn) as [e He].
    destruct (updateTopicForBroker_error _ _ _ He) as [l ->]. simpl. eauto.
Qed.

Lemma getTopicForBroker_reads_config_first broker m :
  exists tr,
    events (getTopicForBroker broker m).2 = events m ++ EvGetBroker broker :: tr.
Proof.
  destruct (routed_dec (brokerConfig m) broker) as [[id Hr] | Hn].
  - destruct (cached_current m broker id) eqn:Hc.
    + unfold cached_current in Hc.
      destruct (topics m !! broker) as [t|] eqn:Ht; [| done].
      apply bool_decide_eq_true in Hc.
      rewrite (getTopicForBroker_hit _ _ _ _ Hr Ht Hc). simpl. eauto.
    + rewrite (getTopicForBroker_slow _ _ _ Hr Hc).
      destruct (updateTopicForBroker_grows broker (after_fast_path broker m))
        as [tr ->].
      simpl. rewrite <- app_assoc. simpl. eauto.
  - destruct (unrouted_error _ _ Hn) as [e He].
    destruct (getTopicForBroker_error _ _ _ He) as [l ->]. simpl. eauto.
Qed.

(** ** [Send] *)

Section SendFacts.

Context {Context_ Event Message : Type}.
Variable WritePubSubMessage : Context_ -> Event -> Message + error.
Variable PublishGet : Context_ -> pubsub.Topic -> bool -> Message -> option error.

Local Abbreviation send := (Send WritePubSubMessage PublishGet).

Lemma Send_lookup_error ctx ns broker ev m e m1 :
  getTopicForBroker (mkNamespacedName ns broker) m = (Err e, m1) ->
  send ctx ns broker ev m = (Err e, m1).
Proof. intros H. unfold Send, bind. by rewrite H. Qed.

Lemma Send_after_lookup ctx ns broker ev m topic m1 :
  getTopicForBroker (mkNamespacedName ns broker) m = (Ok topic, m1) ->
  send ctx ns broker ev m =
    match WritePubSubMessage ctx ev with
    | inr e => (Err e, m1)
    | inl msg =>
        (match PublishGet ctx topic (bool_decide (pubsub.addr topic ∈ stopped m1)) msg with
         | Some e => Err e
         | None => Ok tt
         end,
         with_log m1 (logger m1) (events m1 ++ [EvPublish topic]))
    end.
Proof.
  intros H. unfold Send, bind. rewrite H.
  destruct (WritePubSubMessage ctx ev) as [msg | e]; [| done].
  unfold Topic_Publish.
  by destruct (PublishGet ctx topic _ msg).
Qed.

Lemma Send_unrouted ctx ns broker ev m :
  (forall topicID, ~ routed (brokerConfig m) (mkNamespacedName ns broker) topicID) ->
  exists e m',
    send ctx ns broker ev m = (Err e, m') /\
    getTopicIDForBroker (mkNamespacedName ns broker) m = (Err e, m').
Proof.
  intros Hn. destruct (unrouted_error _ _ Hn) as [e He].
  destruct (getTopicForBroker_error _ _ _ He) as [l Hrun].
  exists e, (with_log m l (events m ++ [EvGetBroker (mkNamespacedName ns broker)])).
  split; [by apply Send_lookup_error |].
  destruct (getTopicIDForBroker_frame (mkNamespacedName ns broker) m)
    as (r & l' & Hid & _).
  unfold getTopicForBroker, bind in Hrun. rewrite Hid in *. simpl in He. subst r.
  by injection Hrun as ->.
Qed.

Lemma Send_reads_config_first ctx ns broker ev m :
  exists tr,
    added m (send ctx ns broker ev m).2 = EvGetBroker (mkNamespacedName ns broker) :: tr.
Proof.
  destruct (getTopicForBroker_reads_config_first (mkNamespacedName ns broker) m)
    as [tr Htr].
  destruct (getTopicForBroker (mkNamespacedName ns broker) m) as [[t | e |] m1] eqn:Hrun;
    simpl in Htr.
  - rewrite (Send_after_lookup _ _ _ _ _ _ _ Hrun).
    destruct (WritePubSubMessage ctx ev) as [msg | e]; simpl.
    + exists (tr ++ [EvPublish t]). apply added_app. simpl.
      rewrite Htr. by rewrite <- app_assoc.
    + exists tr. by apply added_app.
  - rewrite (Send_lookup_error _ _ _ _ _ _ _ Hrun). exists tr. by apply added_app.
  - exists tr. unfold Send, bind. rewrite Hrun. by apply added_app.
Qed.

Lemma Send_wf ctx ns broker ev m :
  cache_wf m -> cache_wf (send ctx ns broker ev m).2.
Proof.
  intros Hwf.
  pose proof (getTopicForBroker_wf (mkNamespacedName ns broker) m Hwf) as Hwf1.
  destruct (getTopicForBroker (mkNamespacedName ns broker) m) as [[t | e |] m1] eqn:Hrun;
    simpl in Hwf1.
  - rewrite (Send_after_lookup _ _ _ _ _ _ _ Hrun).
    destruct (WritePubSubMessage ctx ev); [| done].
    by apply cache_wf_with_log.
  - by rewrite (Send_lookup_error _ _ _ _ _ _ _ Hrun).
  - unfold Send, bind. by rewrite Hrun.
Qed.

(** The invariant holds of every sink that arises. *)
Lemma reachable_wf m :
  reachable WritePubSubMessage PublishGet m -> cache_wf m.
Proof.
  induction 1 as [cfg client | cfg m _ IH | ctx ns broker ev m _ IH].
  - apply cache_wf_new.
  - destruct IH. by constructor.
  - by apply Send_wf.
Qed.

(** C5: for a broker present in the configuration and ready, but with no
    decouple queue or an empty topic id, [Send] fails with an error wrapping
    [ErrIncomplete] (and no other sentinel), the condition is logged at
    error severity, and no handle is made: the client and the map are left
    as they were and the only operation is the read of the configuration. *)
Theorem Send_incomplete ctx ns broker ev m bc :
  brokerConfig m !! mkNamespacedName ns broker = Some bc ->
  config.Broker_State bc = config.State_READY ->
  incomplete bc ->
  exists e m',
    send ctx ns broker ev m = (Err e, m') /\
    e = Errorf "decouple queue of %q: %w" (mkNamespacedName ns broker) ErrIncomplete /\
    errors_Is e ErrIncomplete = true /\
    List.filter (errors_Is e) sentinels = [ErrIncomplete] /\
    (exists msg fs, logger m' = logger m ++ [zap.mkEntry zap.ErrorLevel msg fs]) /\
    opens (added m m') = 0 /\
    added m m' = [EvGetBroker (mkNamespacedName ns broker)] /\
    pubsub_ m' = pubsub_ m /\
    topics m' = topics m.
Proof.
  intros H Hs Hi.
  pose proof (getTopicIDForBroker_incomplete _ _ _ H Hs Hi) as Hid.
  eexists _, _. split.
  { apply Send_lookup_error. unfold getTopicForBroker, bind. rewrite Hid.
    reflexivity. }
  repeat (split; [done |]).
  split; [simpl; eauto |].
  erewrite added_app by reflexivity. done.
Qed.

(** C6: for a broker absent from the configuration, [Send] fails with an
    error wrapping [ErrNotFound] and no other sentinel; it does not panic,
    and the handle map is neither consulted nor modified: the only operation
    of the call is the read of the configuration, and the map, the client
    and the stopped handles are as before. *)
Theorem Send_not_found ctx ns broker ev m :
  brokerConfig m !! mkNamespacedName ns broker = None ->
  exists e m',
    send ctx ns broker ev m = (Err e, m') /\
    e = Errorf "%q: %w" (mkNamespacedName ns broker) ErrNotFound /\
    errors_Is e ErrNotFound = true /\
    List.filter (errors_Is e) sentinels = [ErrNotFound] /\
    added m m' = [EvGetBroker (mkNamespacedName ns broker)] /\
    List.filter is_cache_op (added m m') = [] /\
    topics m' = topics m /\
    pubsub_ m' = pubsub_ m /\
    stopped m' = stopped m.
Proof.
  intros H.
  pose proof (getTopicIDForBroker_absent _ _ H) as Hid.
  eexists _, _. split.
  { apply Send_lookup_error. unfold getTopicForBroker, bind. rewrite Hid.
    reflexivity. }
  repeat (split; [done |]).
  erewrite added_app by reflexivity. done.
Qed.

(** C7: for a broker present in the configuration whose state is not ready,
    whatever its decouple queue and topic id, [Send] fails with an error
    wrapping [ErrNotReady] (and no other sentinel); the lookup returns no
    handle and none is made: the client and the map are as before. *)
Theorem Send_not_ready ctx ns broker ev m bc :
  brokerConfig m !! mkNamespacedName ns broker = Some bc ->
  config.Broker_State bc <> config.State_READY ->
  exists e m',
    send ctx ns broker ev m = (Err e, m') /\
    e = Errorf "%q: %w" (mkNamespacedName ns broker) ErrNotReady /\
    errors_Is e ErrNotReady = true /\
    List.filter (errors_Is e) sentinels = [ErrNotReady] /\
    (getTopicForBroker (mkNamespacedName ns broker) m).1 = Err e /\
    opens (added m m') = 0 /\
    added m m' = [EvGetBroker (mkNamespacedName ns broker)] /\
    pubsub_ m' = pubsub_ m /\
    topics m' = topics m.
Proof.
  intros H Hs.
  pose proof (getTopicIDForBroker_not_ready _ _ _ H Hs) as Hid.
  assert (getTopicForBroker (mkNamespacedName ns broker) m =
          (Err (Errorf "%q: %w" (mkNamespacedName ns broker) ErrNotReady),
           (getTopicIDForBroker (mkNamespacedName ns broker) m).2)) as Hrun.
  { unfold getTopicForBroker, bind. by rewrite Hid. }
  eexists _, _. split; [by apply Send_lookup_error |].
  repeat (split; [done |]).
  split; [by rewrite Hrun |].
  rewrite Hid. simpl.
  erewrite added_app by reflexivity. done.
Qed.

(** A successful lookup tells that the broker is routed to the topic id of
    the handle, and leaves that handle in the map. *)
Lemma getTopicForBroker_Ok broker m topic m1 :
  getTopicForBroker broker m = (Ok topic, m1) ->
  routed (brokerConfig m) broker (pubsub.ID topic) /\
  routed (brokerConfig m1) broker (pubsub.ID topic) /\
  topics m1 !! broker = Some topic /\
  (cached_current m broker (pubsub.ID topic) = true -> topics m1 = topics m).
Proof.
  intros Hrun. destruct (routed_dec (brokerConfig m) broker) as [[id Hr] | Hn].
  - destruct (getTopicForBroker_routed _ _ _ Hr)
      as (t & m' & Hrun' & Hid & Ht & Hcfg & _ & _ & Hsame).
    rewrite Hrun in Hrun'. injection Hrun' as <- <-. subst id.
    rewrite Hcfg. repeat (split; [done |]). intros Hc. by apply Hsame.
  - destruct (getTopicForBroker_unrouted _ _ Hn) as (e & m' & Hrun' & _).
    congruence.
Qed.

(** C8: when the lookup of [Send] succeeds and then the encoding fails or
    the publish call reports an error (a transport error, or the
    cancellation of the context before the acknowledgment), [Send] returns
    that error and the failure changes nothing in the cache: the map, the
    client and the stopped handles are as the lookup left them (and as they
    were before the call when the lookup was a hit), the handle is still
    installed for the broker and has not been stopped, and the next lookup
    returns it without making a handle. *)
Theorem Send_failure_keeps_cache ctx ns broker ev m topic m1 e :
  cache_wf m ->
  getTopicForBroker (mkNamespacedName ns broker) m = (Ok topic, m1) ->
  (WritePubSubMessage ctx ev = inr e \/
   exists msg, WritePubSubMessage ctx ev = inl msg /\
               PublishGet ctx topic false msg = Some e) ->
  exists m',
    send ctx ns broker ev m = (Err e, m') /\
    topics m' = topics m1 /\
    pubsub_ m' = pubsub_ m1 /\
    stopped m' = stopped m1 /\
    (cached_current m (mkNamespacedName ns broker) (pubsub.ID topic) = true ->
       topics m' = topics m) /\
    topics m' !! mkNamespacedName ns broker = Some topic /\
    (pubsub.addr topic ∉ stopped m') /\
    cache_wf m' /\
    (getTopicForBroker (mkNamespacedName ns broker) m').1 = Ok topic /\
    opens (added m' (getTopicForBroker (mkNamespacedName ns broker) m').2) = 0.
Proof.
  intros Hwf Hrun Hfail.
  destruct (getTopicForBroker_Ok _ _ _ _ Hrun) as (_ & Hr1 & Ht1 & Hsame).
  assert (cache_wf m1) as Hwf1.
  { pose proof (getTopicForBroker_wf (mkNamespacedName ns broker) m Hwf) as H.
    by rewrite Hrun in H. }
  assert (pubsub.addr topic ∉ stopped m1) as Hlive by by eapply wf_live.
  assert (exists l tr,
            send ctx ns broker ev m = (Err e, with_log m1 l tr) /\ l = logger m1)
    as (l & tr & Hsend & ->).
  { rewrite (Send_after_lookup _ _ _ _ _ _ _ Hrun).
    destruct Hfail as [-> | (msg & -> & Hp)].
    - exists (logger m1), (events m1). split; [| done]. by destruct m1.
    - rewrite bool_decide_false by done. rewrite Hp. eauto. }
  exists (with_log m1 (logger m1) tr). split; [done |].
  repeat (split; [done |]).
  split; [by apply cache_wf_with_log |].
  rewrite (getTopicForBroker_hit _ (with_log m1 (logger m1) tr) _ _ Hr1 Ht1 eq_refl).
  split; [done |].
  unfold after_fast_path. by erewrite added_app by reflexivity.
Qed.

(** C9: every [Send] starts by reading the configuration, before any
    operation on the handle map.  So when a broker is gone from the
    configuration while the map still holds a handle for it, [Send] fails
    with [ErrNotFound] without reading the map and without publishing to any
    handle; the stale handle stays in the map, untouched and not stopped by
    the call. *)
Theorem Send_vanished_broker ctx ns broker ev m stale :
  brokerConfig m !! mkNamespacedName ns broker = None ->
  topics m !! mkNamespacedName ns broker = Some stale ->
  (forall m0, exists tr,
     added m0 (send ctx ns broker ev m0).2 =
       EvGetBroker (mkNamespacedName ns broker) :: tr) /\
  (exists m',
    send ctx ns broker ev m =
      (Err (Errorf "%q: %w" (mkNamespacedName ns broker) ErrNotFound), m') /\
    added m m' = [EvGetBroker (mkNamespacedName ns broker)] /\
    List.filter is_publish (added m m') = [] /\
    List.filter is_cache_op (added m m') = [] /\
    topics m' = topics m /\
    topics m' !! mkNamespacedName ns broker = Some stale /\
    stopped m' = stopped m).
Proof.
  intros H Hst. split; [intros m0; apply Send_reads_config_first |].
  pose proof (getTopicIDForBroker_absent _ _ H) as Hid.
  eexists. split.
  { apply Send_lookup_error. unfold getTopicForBroker, bind. rewrite Hid.
    reflexivity. }
  erewrite added_app by reflexivity. done.
Qed.

End SendFacts.

(** ** Callers racing on a first lookup *)

Lemma racing_updates_current n broker m topicID topic :
  routed (brokerConfig m) broker topicID ->
  topics m !! broker = Some topic ->
  pubsub.ID topic = topicID ->
  exists tr,
    (racing_updates n broker m).1 = replicate n (Ok topic) /\
    events (racing_updates n broker m).2 = events m ++ tr /\
    opens tr = 0.
Proof.
  revert m. induction n as [| n IH]; intros m Hr Ht Hid.
  - exists []. simpl. by rewrite app_nil_r.
  - simpl. rewrite (updateTopicForBroker_current _ _ _ _ Hr Ht Hid).
    set (m1 := with_log m _ _).
    destruct (IH m1) as (tr & Hrs & Hev & Hop); [done .. |].
    destruct (racing_updates n broker m1) as [rs m2]. simpl in *.
    exists ([EvLock; EvGetBroker broker; EvRead broker; EvUnlock] ++ tr).
    split; [by rewrite Hrs |]. split; [by rewrite Hev, <- app_assoc |].
    by rewrite opens_app, Hop.
Qed.

(** However many callers race on the first lookup of a routed broker, the
    client makes one handle and they all get it. *)
Lemma racing_updates_first n broker m topicID :
  routed (brokerConfig m) broker topicID ->
  topics m !! broker = None ->
  (racing_updates (S n) broker m).1 = replicate (S n) (Ok (next_topic m topicID)) /\
  opens (added m (racing_updates (S n) broker m).2) = 1.
Proof.
  intros Hr Ht. simpl. rewrite (updateTopicForBroker_missing _ _ _ Hr Ht).
  set (m1 := mkSink _ _ _ _ _ _).
  destruct (racing_updates_current n broker m1 topicID (next_topic m topicID))
    as (tr & Hrs & Hev & Hop); [done | apply lookup_insert_eq | done |].
  destruct (racing_updates n broker m1) as [rs m2]. simpl in *.
  split; [by rewrite Hrs |].
  erewrite added_app by (rewrite Hev; unfold m1; simpl; by rewrite <- app_assoc).
  by rewrite opens_app, Hop.
Qed.

(** ** Sample runs *)

Lemma ready_config_routed topicID :
  topicID <> "" -> routed (ready_config topicID) sample_broker topicID.
Proof.
  intros Hne. exists (config.mkBroker config.State_READY (Some (config.mkQueue topicID))),
    (config.mkQueue topicID).
  split; [apply lookup_singleton_eq | done].
Qed.

(** C1, refuted as stated: a sink that holds a handle for topic t1 sees the
    broker routed to t2.  The slow path returns a new handle for t2 and
    installs it, but in its operations the install of the new handle does
    not precede the stop of the old one: the stop comes first. *)
Lemma install_before_stop_refuted :
  let m := with_brokerConfig (ready_config "t2") (used_sink "t1") in
  let old := pubsub.mkTopic 0 "t1" in
  let new := pubsub.mkTopic 1 "t2" in
  let r := updateTopicForBroker sample_broker m in
  topics m !! sample_broker = Some old /\
  r.1 = Ok new /\
  topics r.2 !! sample_broker = Some new /\
  added m r.2 =
    [EvLock; EvGetBroker sample_broker; EvRead sample_broker;
     EvRead sample_broker; EvStop old; EvOpen new;
     EvInstall sample_broker new; EvUnlock] /\
  precedes (EvInstall sample_broker new) (EvStop old) (added m r.2) = false /\
  precedes (EvStop old) (EvInstall sample_broker new) (added m r.2) = true.
Proof. vm_compute. repeat split. Qed.

(** The rotation of the sample broker from t1 to t2: the stop of the t1
    handle precedes the install of the t2 handle. *)
Lemma updateTopicForBroker_stops_then_installs_witness :
  let m := with_brokerConfig (ready_config "t2") (used_sink "t1") in
  exists new m',
    updateTopicForBroker sample_broker m = (Ok new, m') /\
    precedes (EvStop (pubsub.mkTopic 0 "t1")) (EvInstall sample_broker new)
      (added m m') = true.
Proof.
  intros m.
  destruct (updateTopicForBroker_stops_then_installs sample_broker m "t2"
              (pubsub.mkTopic 0 "t1"))
    as (new & m' & Hrun & _ & _ & _ & _ & _ & Hord & _).
  - exists (config.mkBroker config.State_READY (Some (config.mkQueue "t2"))),
      (config.mkQueue "t2").
    repeat split; first [vm_compute; reflexivity | discriminate].
  - vm_compute. reflexivity.
  - simpl. discriminate.
  - exists new, m'. split; [exact Hrun | exact Hord].
Defined.

(** The slow path on a sink that already holds the current handle. *)
Lemma updateTopicForBroker_double_check_witness :
  let m := used_sink "t1" in
  exists m',
    updateTopicForBroker sample_broker m = (Ok (pubsub.mkTopic 0 "t1"), m') /\
    opens (added m m') = 0.
Proof.
  intros m.
  destruct (updateTopicForBroker_double_check sample_broker m "t1"
              (pubsub.mkTopic 0 "t1"))
    as (m' & Hrun & Hop & _).
  - exists (config.mkBroker config.State_READY (Some (config.mkQueue "t1"))),
      (config.mkQueue "t1").
    repeat split; first [vm_compute; reflexivity | discriminate].
  - vm_compute. reflexivity.
  - reflexivity.
  - exists m'. split; [exact Hrun | exact Hop].
Defined.

(** The slow path after the sample broker has vanished from the
    configuration. *)
Lemma updateTopicForBroker_error_atomic_witness :
  let m := with_brokerConfig ∅ (used_sink "t1") in
  exists e m',
    updateTopicForBroker sample_broker m = (Err e, m') /\
    topics m' = topics m.
Proof.
  intros m.
  destruct (updateTopicForBroker_error_atomic sample_broker m)
    as (e & m' & Hrun & _ & _ & Ht & _).
  - intros id (bc & q & H & _). vm_compute in H. discriminate.
  - exists e, m'. split; [exact Hrun | exact Ht].
Defined.

(** C4, refuted as stated: after one lookup on a sink just constructed, two
    more lookups in a row under the unchanged, ready configuration return
    the identical handle, and across these two calls the client makes no
    handle at all, not one. *)
Lemma getTopicForBroker_twice_makes_none :
  let m := used_sink "t1" in
  let r1 := getTopicForBroker sample_broker m in
  let r2 := getTopicForBroker sample_broker r1.2 in
  brokerConfig m = ready_config "t1" /\
  brokerConfig r1.2 = brokerConfig m /\
  r1.1 = Ok (pubsub.mkTopic 0 "t1") /\
  r2.1 = Ok (pubsub.mkTopic 0 "t1") /\
  opens (added m r2.2) = 0 /\
  opens (added m r2.2) <> 1.
Proof. vm_compute. repeat split. discriminate. Qed.

(** Two lookups in a row on a sink just constructed: one handle is made. *)
Lemma getTopicForBroker_twice_witness :
  let m := fresh_sink (ready_config "t1") in
  exists topic m1 m2,
    getTopicForBroker sample_broker m = (Ok topic, m1) /\
    getTopicForBroker sample_broker m1 = (Ok topic, m2) /\
    opens (added m m1) + opens (added m1 m2) = 1.
Proof.
  intros m.
  destruct (getTopicForBroker_twice sample_broker m "t1")
    as (topic & m1 & m2 & Hrun1 & _ & Hrun2 & _ & _ & Hop).
  - exists (config.mkBroker config.State_READY (Some (config.mkQueue "t1"))),
      (config.mkQueue "t1").
    repeat split; first [vm_compute; reflexivity | discriminate].
  - exists topic, m1, m2. split; [exact Hrun1 |]. split; [exact Hrun2 | exact Hop].
Defined.

(** The lookup of a broker under an empty configuration. *)
Lemma lookup_errors_wrap_sentinels_witness :
  let m := fresh_sink ∅ in
  let r := getTopicForBroker sample_broker m in
  exists format s,
    r.1 = Err (Errorf format sample_broker s) /\ s ∈ sentinels.
Proof.
  intros m r.
  destruct (lookup_errors_wrap_sentinels sample_broker m
              (Errorf "%q: %w" sample_broker ErrNotFound) r.2)
    as ((format & s & He & Hs & _) & _).
  - left. vm_compute. reflexivity.
  - exists format, s. split; [| exact Hs]. rewrite <- He. vm_compute. reflexivity.
Defined.

(** The sample broker, ready, with an empty topic id. *)
Lemma Send_incomplete_witness :
  let m := fresh_sink (sample_config config.State_READY (Some (config.mkQueue ""))) in
  exists e m',
    Send (sample_encoder false) (sample_transport None) tt "ns" "b1" tt m = (Err e, m') /\
    errors_Is e ErrIncomplete = true /\
    opens (added m m') = 0.
Proof.
  intros m.
  destruct (Send_incomplete (sample_encoder false) (sample_transport None)
              tt "ns" "b1" tt m
              (config.mkBroker config.State_READY (Some (config.mkQueue ""))))
    as (e & m' & Hrun & _ & He & _ & _ & Hop & _).
  - vm_compute. reflexivity.
  - reflexivity.
  - right. exists (config.mkQueue ""). split; reflexivity.
  - exists e, m'. split; [exact Hrun |]. split; [exact He | exact Hop].
Defined.

(** The sample broker under an empty configuration. *)
Lemma Send_not_found_witness :
  let m := fresh_sink ∅ in
  exists e m',
    Send (sample_encoder false) (sample_transport None) tt "ns" "b1" tt m = (Err e, m') /\
    errors_Is e ErrNotFound = true /\
    topics m' = topics m.
Proof.
  intros m.
  destruct (Send_not_found (sample_encoder false) (sample_transport None)
              tt "ns" "b1" tt m)
    as (e & m' & Hrun & _ & He & _ & _ & _ & Ht & _).
  - vm_compute. reflexivity.
  - exists e, m'. split; [exact Hrun |]. split; [exact He | exact Ht].
Defined.

(** The sample broker, not ready, with topic id t1. *)
Lemma Send_not_ready_witness :
  let m := fresh_sink (sample_config config.State_UNKNOWN (Some (config.mkQueue "t1"))) in
  exists e m',
    Send (sample_encoder false) (sample_transport None) tt "ns" "b1" tt m = (Err e, m') /\
    errors_Is e ErrNotReady = true /\
    opens (added m m') = 0.
Proof.
  intros m.
  destruct (Send_not_ready (sample_encoder false) (sample_transport None)
              tt "ns" "b1" tt m
              (config.mkBroker config.State_UNKNOWN (Some (config.mkQueue "t1"))))
    as (e & m' & Hrun & _ & He & _ & _ & Hop & _).
  - vm_compute. reflexivity.
  - discriminate.
  - exists e, m'. split; [exact Hrun |]. split; [exact He | exact Hop].
Defined.

(** The first [Send] for the sample broker, cancelled before the
    acknowledgment: the handle it made stays in the map, live. *)
Lemma Send_failure_keeps_cache_witness :
  let m := fresh_sink (ready_config "t1") in
  let canceled := Foreign "context canceled" in
  exists m',
    Send (sample_encoder false) (sample_transport (Some canceled)) tt "ns" "b1" tt m
      = (Err canceled, m') /\
    topics m' !! sample_broker = Some (pubsub.mkTopic 0 "t1") /\
    pubsub.addr (pubsub.mkTopic 0 "t1") ∉ stopped m'.
Proof.
  intros m canceled.
  destruct (Send_failure_keeps_cache (sample_encoder false)
              (sample_transport (Some canceled)) tt "ns" "b1" tt m
              (pubsub.mkTopic 0 "t1")
              (getTopicForBroker sample_broker m).2 canceled)
    as (m' & Hrun & _ & _ & _ & _ & Ht & Hlive & _).
  - apply cache_wf_new.
  - vm_compute. reflexivity.
  - right. exists tt. split; reflexivity.
  - exists m'. split; [exact Hrun |]. split; [exact Ht | exact Hlive].
Defined.

(** The sample broker vanishes from the configuration after a lookup. *)
Lemma Send_vanished_broker_witness :
  let m := with_brokerConfig ∅ (used_sink "t1") in
  exists m',
    Send (sample_encoder false) (sample_transport None) tt "ns" "b1" tt m
      = (Err (Errorf "%q: %w" sample_broker ErrNotFound), m') /\
    List.filter is_publish (added m m') = [] /\
    topics m' !! sample_broker = Some (pubsub.mkTopic 0 "t1").
Proof.
  intros m.
  destruct (Send_vanished_broker (sample_encoder false) (sample_transport None)
              tt "ns" "b1" tt m (pubsub.mkTopic 0 "t1"))
    as (_ & m' & Hrun & _ & Hp & _ & _ & Ht & _).
  - vm_compute. reflexivity.
  - vm_compute. reflexivity.
  - exists m'. split; [exact Hrun |]. split; [exact Hp | exact Ht].
Defined.

(** The rotation of the sample broker, end to end: a [Send] under t1, the
    configuration changes to t2, a second [Send].  The two sends publish to
    the t1 handle and to the t2 handle; the t1 handle is stopped once, and
    the map ends with the t2 handle. *)
Example rotation_sample :
  let send := Send (sample_encoder false) (sample_transport None) tt "ns" "b1" tt in
  let m1 := (send (fresh_sink (ready_config "t1"))).2 in
  let r2 := send (with_brokerConfig (ready_config "t2") m1) in
  r2.1 = Ok tt /\
  List.filter (fun e => is_publish e || bool_decide (e = EvStop (pubsub.mkTopic 0 "t1")))
    (events r2.2) =
    [EvPublish (pubsub.mkTopic 0 "t1"); EvStop (pubsub.mkTopic 0 "t1");
     EvPublish (pubsub.mkTopic 1 "t2")] /\
  elements (stopped r2.2) = [0] /\
  topics r2.2 !! sample_broker = Some (pubsub.mkTopic 1 "t2") /\
  opens (events r2.2) = 2.
Proof. vm_compute. repeat split. Qed.

(** A [Send] whose encoding fails: the error of the encoder comes back, the
    handle made by the lookup is in the map, and nothing was published. *)
Example encoding_failure_sample :
  let m := fresh_sink (ready_config "t1") in
  let r := Send (sample_encoder true) (sample_transport None) tt "ns" "b1" tt m in
  r.1 = Err (Foreign "cannot encode") /\
  topics r.2 !! sample_broker = Some (pubsub.mkTopic 0 "t1") /\
  List.filter is_publish (events r.2) = [].
Proof. vm_compute. repeat split. Qed.

(** Three callers racing on the first lookup of the sample broker. *)
Example racing_sample :
  let r := racing_updates 3 sample_broker (fresh_sink (ready_config "t1")) in
  r.1 = replicate 3 (Ok (pubsub.mkTopic 0 "t1")) /\ opens (events r.2) = 1.
Proof. vm_compute. split; reflexivity. Qed.

(** * Further properties of the sink *)

(** ** The lookup, by cases *)

(** The four ways a lookup can go, with the sink each leaves: the route
    fails; the fast path hits; the slow path replaces a stale handle; the
    slow path makes the first handle. *)
Lemma getTopicForBroker_cases broker m
    (P : outcome pubsub.Topic -> multiTopicDecoupleSink -> Prop) :
  (forall e l,
     (forall id, ~ routed (brokerConfig m) broker id) ->
     getTopicIDForBroker broker m =
       (Err e, with_log m l (events m ++ [EvGetBroker broker])) ->
     P (Err e) (with_log m l (events m ++ [EvGetBroker broker]))) ->
  (forall id t,
     routed (brokerConfig m) broker id ->
     topics m !! broker = Some t -> pubsub.ID t = id ->
     P (Ok t) (after_fast_path broker m)) ->
  (forall id old,
     routed (brokerConfig m) broker id ->
     topics m !! broker = Some old -> pubsub.ID old <> id ->
     P (Ok (next_topic m id))
       (mkSink (pubsub.mkClient (S (pubsub.made (pubsub_ m))))
               (<[broker := next_topic m id]> (topics m))
               (brokerConfig m) (logger m)
               ({[pubsub.addr old]} ∪ stopped m)
               (events m ++
                [EvGetBroker broker; EvRLock; EvRead broker; EvRUnlock;
                 EvLock; EvGetBroker broker; EvRead broker; EvRead broker;
                 EvStop old; EvOpen (next_topic m id);
                 EvInstall broker (next_topic m id); EvUnlock]))) ->
  (forall id,
     routed (brokerConfig m) broker id ->
     topics m !! broker = None ->
     P (Ok (next_topic m id))
       (mkSink (pubsub.mkClient (S (pubsub.made (pubsub_ m))))
               (<[broker := next_topic m id]> (topics m))
               (brokerConfig m) (logger m) (stopped m)
               (events m ++
                [EvGetBroker broker; EvRLock; EvRead broker; EvRUnlock;
                 EvLock; EvGetBroker broker; EvRead broker;
                 EvOpen (next_topic m id);
                 EvInstall broker (next_topic m id); EvUnlock]))) ->
  P (getTopicForBroker broker m).1 (getTopicForBroker broker m).2.
Proof.
  intros Herr Hhit Hstale Hmiss.
  destruct (routed_dec (brokerConfig m) broker) as [[id Hr] | Hn].
  - destruct (topics m !! broker) as [t|] eqn:Ht.
    + destruct (decide (pubsub.ID t = id)) as [Hid|Hid].
      * rewrite (getTopicForBroker_hit _ _ _ _ Hr Ht Hid). by eapply Hhit.
      * rewrite (getTopicForBroker_slow _ _ id Hr)
          by (unfold cached_current; rewrite Ht; by apply bool_decide_eq_false).
        rewrite (updateTopicForBroker_stale _ _ id t) by done.
        simpl. rewrite <- app_assoc. by apply Hstale.
    + rewrite (getTopicForBroker_slow _ _ id Hr)
        by (unfold cached_current; by rewrite Ht).
      rewrite (updateTopicForBroker_missing _ _ id) by done.
      simpl. rewrite <- app_assoc. by apply Hmiss.
  - destruct (unrouted_error _ _ Hn) as [e He].
    destruct (getTopicIDForBroker_frame broker m) as (r & l & Hid & _).
    rewrite Hid in He. simpl in He. subst r.
    unfold getTopicForBroker, bind. rewrite Hid. simpl. by apply Herr.
Qed.

Lemma with_log_id m : with_log m (logger m) (events m ++ []) = m.
Proof. unfold with_log. rewrite app_nil_r. by destruct m. Qed.

Lemma opens_opened tr : opens tr = length (opened tr).
Proof.
  unfold opens, opened. induction tr as [| e tr IH]; [done |].
  destruct e; simpl; by rewrite ?IH.
Qed.

Lemma lock_run_app s tr1 tr2 :
  lock_run s (tr1 ++ tr2) =
    match lock_run s tr1 with
    | Some s' => lock_run s' tr2
    | None => None
    end.
Proof.
  revert s. induction tr1 as [| e tr1 IH]; intros s; [done |].
  simpl. destruct (lock_step s e); [apply IH | done].
Qed.

(** X1: the lookup returns only handles that are bound to the topic id the
    configuration routes the broker to, are held by the map for that broker
    when the call returns, and have not been stopped; it leaves the handles
    of all other brokers alone. *)
Theorem getTopicForBroker_sound broker m topic m' :
  cache_wf m ->
  getTopicForBroker broker m = (Ok topic, m') ->
  routed (brokerConfig m') broker (pubsub.ID topic) /\
  topics m' !! broker = Some topic /\
  (pubsub.addr topic ∉ stopped m') /\
  (forall b, b <> broker -> topics m' !! b = topics m !! b).
Proof.
  intros Hwf Hrun.
  destruct (getTopicForBroker_Ok _ _ _ _ Hrun) as (_ & Hr & Ht & _).
  pose proof (getTopicForBroker_wf broker m Hwf) as Hwf'.
  rewrite Hrun in Hwf'. simpl in Hwf'.
  repeat (split; [done || by eapply wf_live |]).
  pose proof (getTopicForBroker_cases broker m
    (fun _ m1 => forall b, b <> broker -> topics m1 !! b = topics m !! b)) as Hc.
  rewrite Hrun in Hc. simpl in Hc. apply Hc; try done.
  - intros id old _ _ _ b Hb. by apply lookup_insert_ne.
  - intros id _ _ b Hb. by apply lookup_insert_ne.
Qed.

Lemma racing_updates_holds n broker m topicID topic :
  routed (brokerConfig m) broker topicID ->
  topics m !! broker = Some topic ->
  pubsub.ID topic = topicID ->
  topics (racing_updates n broker m).2 !! broker = Some topic.
Proof.
  revert m. induction n as [| k IH]; intros m Hr Ht Hid; [done |].
  simpl. rewrite (updateTopicForBroker_current _ _ _ _ Hr Ht Hid).
  set (m1 := with_log m _ _). specialize (IH m1).
  destruct (racing_updates k broker m1). by apply IH.
Qed.

(** After a first call that installs the next handle, the callers behind it
    get that handle and make nothing. *)
Lemma racing_updates_after_install n broker m m1 topicID pre :
  routed (brokerConfig m1) broker topicID ->
  topics m1 !! broker = Some (next_topic m topicID) ->
  events m1 = events m ++ pre ->
  opens pre = 1 ->
  (racing_updates n broker m1).1 = replicate n (Ok (next_topic m topicID)) /\
  topics (racing_updates n broker m1).2 !! broker = Some (next_topic m topicID) /\
  opens (added m (racing_updates n broker m1).2) = 1.
Proof.
  intros Hr1 Ht1 Hev1 Hpre.
  destruct (racing_updates_current n broker m1 topicID (next_topic m topicID))
    as (tr & Hrs & Hev & Hop); [done .. |].
  split; [done |].
  split; [by apply (racing_updates_holds _ _ _ topicID) |].
  erewrite added_app by (rewrite Hev, Hev1; by rewrite <- app_assoc).
  rewrite opens_app, Hop, Hpre. done.
Qed.

(** X2: callers that all reach the slow path for a routed broker and run it
    one after the other, as the exclusive lock makes them, all get the same
    handle, bound to the routed topic id; among them the client makes one
    handle when the map held none that was current, and none otherwise. *)
Theorem racing_updates_agree n broker m topicID :
  routed (brokerConfig m) broker topicID ->
  exists topic,
    (racing_updates (S n) broker m).1 = replicate (S n) (Ok topic) /\
    pubsub.ID topic = topicID /\
    topics (racing_updates (S n) broker m).2 !! broker = Some topic /\
    opens (added m (racing_updates (S n) broker m).2) =
      (if cached_current m broker topicID then 0 else 1).
Proof.
  intros Hr. unfold cached_current.
  destruct (topics m !! broker) as [t|] eqn:Ht.
  - destruct (decide (pubsub.ID t = topicID)) as [Hid|Hid].
    + rewrite bool_decide_true by done.
      destruct (racing_updates_current (S n) broker m topicID t)
        as (tr & Hrs & Hev & Hop); [done .. |].
      exists t. split; [done |]. split; [done |].
      split; [by apply (racing_updates_holds _ _ _ topicID) |].
      by rewrite (added_app _ _ _ Hev).
    + rewrite bool_decide_false by done. simpl.
      rewrite (updateTopicForBroker_stale _ _ _ _ Hr Ht Hid).
      set (m1 := mkSink _ _ _ _ _ _).
      destruct (racing_updates_after_install n broker m m1 topicID
                  [EvLock; EvGetBroker broker; EvRead broker; EvRead broker;
                   EvStop t; EvOpen (next_topic m topicID);
                   EvInstall broker (next_topic m topicID); EvUnlock])
        as (Hrs & Hheld & Hop); [done | apply lookup_insert_eq | done | done |].
      exists (next_topic m topicID).
      destruct (racing_updates n broker m1) as [rs m2]. simpl in *.
      by rewrite Hrs.
  - simpl. rewrite (updateTopicForBroker_missing _ _ _ Hr Ht).
    set (m1 := mkSink _ _ _ _ _ _).
    destruct (racing_updates_after_install n broker m m1 topicID
                [EvLock; EvGetBroker broker; EvRead broker;
                 EvOpen (next_topic m topicID);
                 EvInstall broker (next_topic m topicID); EvUnlock])
      as (Hrs & Hheld & Hop); [done | apply lookup_insert_eq | done | done |].
    exists (next_topic m topicID).
    destruct (racing_updates n broker m1) as [rs m2]. simpl in *.
    by rewrite Hrs.
Qed.

(** ** One [Send], end to end *)

Section SendEffects.

Context {Context_ Event Message : Type}.
Variable WritePubSubMessage : Context_ -> Event -> Message + error.
Variable PublishGet : Context_ -> pubsub.Topic -> bool -> Message -> option error.

Local Abbreviation send := (Send WritePubSubMessage PublishGet).

Lemma Send_shape ctx ns broker ev m :
  let r1 := (getTopicForBroker (mkNamespacedName ns broker) m).1 in
  let m1 := (getTopicForBroker (mkNamespacedName ns broker) m).2 in
  (send ctx ns broker ev m).2 =
    with_log m1 (logger m1) (events m1 ++ publish_stage WritePubSubMessage ctx ev r1) /\
  (send ctx ns broker ev m).1 =
    match r1 with
    | Ok t =>
        match WritePubSubMessage ctx ev with
        | inl msg =>
            match PublishGet ctx t (bool_decide (pubsub.addr t ∈ stopped m1)) msg with
            | Some e => Err e
            | None => Ok tt
            end
        | inr e => Err e
        end
    | Err e => Err e
    | Panic => Panic
    end.
Proof.
  unfold publish_stage.
  destruct (getTopicForBroker (mkNamespacedName ns broker) m) as [[t | e |] m1] eqn:Hrun;
    simpl.
  - rewrite (Send_after_lookup _ _ _ _ _ _ _ _ _ Hrun).
    destruct (WritePubSubMessage ctx ev); simpl; [done |].
    by rewrite with_log_id.
  - rewrite (Send_lookup_error _ _ _ _ _ _ _ _ _ Hrun). by rewrite with_log_id.
  - unfold Send, bind. rewrite Hrun. by rewrite with_log_id.
Qed.

Lemma Send_added ctx ns broker ev m :
  added m (send ctx ns broker ev m).2 =
    added m (getTopicForBroker (mkNamespacedName ns broker) m).2 ++
    publish_stage WritePubSubMessage ctx ev
      (getTopicForBroker (mkNamespacedName ns broker) m).1.
Proof.
  destruct (Send_shape ctx ns broker ev m) as [-> _].
  destruct (getTopicForBroker_reads_config_first (mkNamespacedName ns broker) m)
    as [tr Htr].
  rewrite (added_app m _ _ Htr).
  apply added_app. simpl. rewrite Htr. by rewrite <- app_assoc.
Qed.

(** X3: every [Send], from any state and however it ends, keeps the locking
    discipline of the handle map: it releases each lock it takes, reads the
    map only under a lock, makes, stops and installs handles only under the
    exclusive lock, and publishes with no lock held. *)
Theorem Send_lock_discipline ctx ns broker ev m :
  lock_run Unlocked (added m (send ctx ns broker ev m).2) = Some Unlocked.
Proof.
  rewrite Send_added, lock_run_app.
  pose proof (getTopicForBroker_cases (mkNamespacedName ns broker) m
    (fun r m1 =>
       match lock_run Unlocked (added m m1) with
       | Some s' => lock_run s' (publish_stage WritePubSubMessage ctx ev r)
       | None => None
       end = Some Unlocked)) as Hc.
  apply Hc; clear Hc; unfold publish_stage.
  - intros e l _ _. by erewrite added_app by reflexivity.
  - intros id t _ _ _. unfold after_fast_path.
    erewrite added_app by reflexivity. simpl.
    by destruct (WritePubSubMessage ctx ev).
  - intros id old _ _ _. erewrite added_app by reflexivity. simpl.
    by destruct (WritePubSubMessage ctx ev).
  - intros id _ _. erewrite added_app by reflexivity. simpl.
    by destruct (WritePubSubMessage ctx ev).
Qed.

Lemma getTopicForBroker_accounting broker m :
  let m1 := (getTopicForBroker broker m).2 in
  pubsub.made (pubsub_ m1) = pubsub.made (pubsub_ m) + opens (added m m1) /\
  opens (added m m1) <= 1 /\
  length (stops (added m m1)) <= opens (added m m1) /\
  published (added m m1) = [] /\
  stopped m1 = list_to_set (pubsub.addr <$> stops (added m m1)) ∪ stopped m.
Proof.
  apply (getTopicForBroker_cases broker m
    (fun _ m1 =>
       pubsub.made (pubsub_ m1) = pubsub.made (pubsub_ m) + opens (added m m1) /\
       opens (added m m1) <= 1 /\
       length (stops (added m m1)) <= opens (added m m1) /\
       published (added m m1) = [] /\
       stopped m1 = list_to_set (pubsub.addr <$> stops (added m m1)) ∪ stopped m)).
  - intros e l _ _. erewrite added_app by reflexivity. unfold opens. simpl.
    split; [lia |]. split; [lia |]. split; [lia |]. split; [done |].
    by rewrite (left_id_L ∅ (∪)).
  - intros id t _ _ _. unfold after_fast_path.
    erewrite added_app by reflexivity. unfold opens. simpl.
    split; [lia |]. split; [lia |]. split; [lia |]. split; [done |].
    by rewrite (left_id_L ∅ (∪)).
  - intros id old _ _ _. erewrite added_app by reflexivity. unfold opens. simpl.
    split; [lia |]. split; [lia |]. split; [lia |]. split; [done |].
    by rewrite (right_id_L ∅ (∪)).
  - intros id _ _. erewrite added_app by reflexivity. unfold opens. simpl.
    split; [lia |]. split; [lia |]. split; [lia |]. split; [done |].
    by rewrite (left_id_L ∅ (∪)).
Qed.

(** X4: one [Send] makes at most one handle, stops at most one, and stops
    one only in a call that makes one; it publishes at most once.  The
    client's count of handles grows by the number made, and the stopped set
    grows by exactly the handles stopped in the call. *)
Theorem Send_accounting ctx ns broker ev m :
  let m' := (send ctx ns broker ev m).2 in
  pubsub.made (pubsub_ m') = pubsub.made (pubsub_ m) + opens (added m m') /\
  opens (added m m') <= 1 /\
  length (stops (added m m')) <= opens (added m m') /\
  length (published (added m m')) <= 1 /\
  stopped m' = list_to_set (pubsub.addr <$> stops (added m m')) ∪ stopped m.
Proof.
  simpl. rewrite Send_added.
  destruct (Send_shape ctx ns broker ev m) as [-> _]. simpl.
  destruct (getTopicForBroker_accounting (mkNamespacedName ns broker) m)
    as (H1 & H2 & H3 & H4 & H5).
  set (tr := publish_stage WritePubSubMessage ctx ev
               (getTopicForBroker (mkNamespacedName ns broker) m).1).
  assert (opens tr = 0 /\ stops tr = [] /\ length (published tr) <= 1)
    as (Ho & Hs & Hp).
  { unfold tr, publish_stage.
    destruct (getTopicForBroker (mkNamespacedName ns broker) m).1;
      destruct (WritePubSubMessage ctx ev); simpl; repeat split; lia. }
  rewrite opens_app, Ho.
  replace (stops (added m (getTopicForBroker (mkNamespacedName ns broker) m).2 ++ tr))
    with (stops (added m (getTopicForBroker (mkNamespacedName ns broker) m).2))
    by (unfold stops at 2; rewrite omap_app; fold (stops tr);
        rewrite Hs; by rewrite app_nil_r).
  replace (published (added m (getTopicForBroker (mkNamespacedName ns broker) m).2 ++ tr))
    with (published tr)
    by (unfold published at 2; rewrite omap_app;
        fold (published (added m (getTopicForBroker (mkNamespacedName ns broker) m).2));
        by rewrite H4).
  split; [lia |]. split; [lia |]. split; [lia |]. split; [lia | done].
Qed.

(** X5: a [Send] for one broker leaves the handle of every other broker as
    it was. *)
Theorem Send_frame ctx ns broker ev m b :
  b <> mkNamespacedName ns broker ->
  topics (Send WritePubSubMessage PublishGet ctx ns broker ev m).2 !! b =
    topics m !! b.
Proof.
  intros Hb. destruct (Send_shape ctx ns broker ev m) as [-> _]. simpl.
  apply (getTopicForBroker_cases (mkNamespacedName ns broker) m
    (fun _ m1 => topics m1 !! b = topics m !! b)); try done.
  - intros id old _ _ _. by apply lookup_insert_ne.
  - intros id _ _. by apply lookup_insert_ne.
Qed.

(** X6: [Send] never removes a broker from the handle map, never takes a
    handle out of the stopped set, and never changes the broker
    configuration it reads. *)
Theorem Send_keeps_entries ctx ns broker ev m :
  let m' := (Send WritePubSubMessage PublishGet ctx ns broker ev m).2 in
  dom (topics m) ⊆ dom (topics m') /\
  stopped m ⊆ stopped m' /\
  brokerConfig m' = brokerConfig m.
Proof.
  cbv zeta.
  destruct (Send_shape ctx ns broker ev m) as [-> _]. simpl.
  apply (getTopicForBroker_cases (mkNamespacedName ns broker) m
    (fun _ m1 =>
       dom (topics m) ⊆ dom (topics m1) /\
       stopped m ⊆ stopped m1 /\
       brokerConfig m1 = brokerConfig m)); try done.
  - intros id old _ _ _. simpl. rewrite dom_insert_L. set_solver.
  - intros id _ _. simpl. rewrite dom_insert_L. set_solver.
Qed.

Lemma getTopicForBroker_stale broker m topicID old :
  routed (brokerConfig m) broker topicID ->
  topics m !! broker = Some old ->
  pubsub.ID old <> topicID ->
  getTopicForBroker broker m =
    (Ok (next_topic m topicID),
     mkSink (pubsub.mkClient (S (pubsub.made (pubsub_ m))))
            (<[broker := next_topic m topicID]> (topics m))
            (brokerConfig m) (logger m)
            ({[pubsub.addr old]} ∪ stopped m)
            (events m ++
             [EvGetBroker broker; EvRLock; EvRead broker; EvRUnlock;
              EvLock; EvGetBroker broker; EvRead broker; EvRead broker;
              EvStop old; EvOpen (next_topic m topicID);
              EvInstall broker (next_topic m topicID); EvUnlock])).
Proof.
  intros Hr Ht Hid.
  rewrite (getTopicForBroker_slow _ _ topicID Hr)
    by (unfold cached_current; rewrite Ht; by apply bool_decide_eq_false).
  rewrite (updateTopicForBroker_stale _ _ topicID old) by done.
  simpl. by rewrite <- app_assoc.
Qed.

(** X7: when the broker is routed and the encoding succeeds, [Send]
    publishes exactly once, to a handle that is bound to the routed topic
    id, is held by the map for the broker and has not been stopped; what
    [Send] returns is what the transport reports, unchanged: its error, or
    success when there is none. *)
Theorem Send_publishes_to_current ctx ns broker ev m topicID msg :
  cache_wf m ->
  routed (brokerConfig m) (mkNamespacedName ns broker) topicID ->
  WritePubSubMessage ctx ev = inl msg ->
  exists t,
    published (added m (send ctx ns broker ev m).2) = [t] /\
    pubsub.ID t = topicID /\
    topics (send ctx ns broker ev m).2 !! mkNamespacedName ns broker = Some t /\
    (pubsub.addr t ∉ stopped (send ctx ns broker ev m).2) /\
    (send ctx ns broker ev m).1 =
      match PublishGet ctx t false msg with
      | Some e => Err e
      | None => Ok tt
      end.
Proof.
  intros Hwf Hr Hw.
  destruct (getTopicForBroker_routed _ _ _ Hr)
    as (t & m1 & Hrun & Hid & Ht & _).
  pose proof (getTopicForBroker_wf (mkNamespacedName ns broker) m Hwf) as Hwf1.
  destruct (getTopicForBroker_accounting (mkNamespacedName ns broker) m)
    as (_ & _ & _ & Hpub & _).
  rewrite Send_added.
  destruct (Send_shape ctx ns broker ev m) as [-> ->].
  rewrite Hrun in *. simpl in *.
  assert (pubsub.addr t ∉ stopped m1) as Hlive by by eapply wf_live.
  exists t. unfold publish_stage. rewrite Hw.
  unfold published in *. rewrite omap_app, Hpub.
  rewrite bool_decide_false by done. done.
Qed.

(** X8: a [Send] that finds the map holding a handle for another topic id
    than the routed one stops that handle, makes one new handle for the
    routed topic id, installs it and publishes to it, in this order: the
    old handle is stopped once, under the exclusive lock and before the
    publish, and is not published to. *)
Theorem Send_rotation ctx ns broker ev m topicID old msg :
  routed (brokerConfig m) (mkNamespacedName ns broker) topicID ->
  topics m !! mkNamespacedName ns broker = Some old ->
  pubsub.ID old <> topicID ->
  WritePubSubMessage ctx ev = inl msg ->
  let b := mkNamespacedName ns broker in
  let m' := (send ctx ns broker ev m).2 in
  let new := next_topic m topicID in
  added m m' =
    [EvGetBroker b; EvRLock; EvRead b; EvRUnlock;
     EvLock; EvGetBroker b; EvRead b; EvRead b;
     EvStop old; EvOpen new; EvInstall b new; EvUnlock;
     EvPublish new] /\
  stops (added m m') = [old] /\
  opened (added m m') = [new] /\
  published (added m m') = [new] /\
  new <> old /\
  topics m' !! b = Some new /\
  pubsub.addr old ∈ stopped m'.
Proof.
  intros Hr Ht Hid Hw. cbv zeta.
  assert (next_topic m topicID <> old) as Hne by (intros <-; by apply Hid).
  rewrite Send_added.
  destruct (Send_shape ctx ns broker ev m) as [-> _].
  rewrite (getTopicForBroker_stale _ _ _ _ Hr Ht Hid).
  cbn [fst snd with_log topics stopped events logger].
  erewrite added_app by reflexivity.
  unfold publish_stage. rewrite Hw.
  split; [reflexivity |].
  split; [reflexivity |]. split; [reflexivity |]. split; [reflexivity |].
  split; [exact Hne |].
  split; [apply lookup_insert_eq |].
  apply elem_of_union_l, elem_of_singleton; reflexivity.
Qed.

(** X9: a [Send] for a broker that is not routed writes exactly one entry to
    the logger, at warning level when the broker is absent from the
    configuration, at debug level when it is present but not ready, and at
    error level when it is ready but incomplete. *)
Theorem Send_unrouted_logs_once ctx ns broker ev m :
  (forall topicID, ~ routed (brokerConfig m) (mkNamespacedName ns broker) topicID) ->
  exists entry,
    logger (send ctx ns broker ev m).2 = logger m ++ [entry] /\
    zap.level entry =
      match brokerConfig m !! mkNamespacedName ns broker with
      | None => zap.WarnLevel
      | Some bc =>
          if decide (config.Broker_State bc = config.State_READY)
          then zap.ErrorLevel else zap.DebugLevel
      end.
Proof.
  intros Hn. destruct (Send_shape ctx ns broker ev m) as [-> _]. simpl.
  unfold getTopicForBroker, bind.
  apply unrouted_iff in Hn as [H | [(bc & H & Hs) | (bc & H & Hs & Hi)]].
  - rewrite (getTopicIDForBroker_absent _ _ H), H. simpl. eauto.
  - rewrite (getTopicIDForBroker_not_ready _ _ _ H Hs), H. simpl.
    rewrite decide_False by done. eauto.
  - rewrite (getTopicIDForBroker_incomplete _ _ _ H Hs Hi), H. simpl.
    rewrite decide_True by done. eauto.
Qed.

(** X10: a [Send] for a routed broker writes nothing to the logger, whether
    the handle is found, replaced or made, and whether the encoding and the
    publish succeed or fail. *)
Theorem Send_routed_logs_nothing ctx ns broker ev m topicID :
  routed (brokerConfig m) (mkNamespacedName ns broker) topicID ->
  logger (send ctx ns broker ev m).2 = logger m.
Proof.
  intros Hr. destruct (Send_shape ctx ns broker ev m) as [-> _]. simpl.
  apply (getTopicForBroker_cases (mkNamespacedName ns broker) m
    (fun _ m1 => logger m1 = logger m)); try done.
  intros e l Hn _. by destruct (Hn topicID).
Qed.

End SendEffects.

(** ** What the whole history of a sink shows *)

Lemma stops_app tr1 tr2 : stops (tr1 ++ tr2) = stops tr1 ++ stops tr2.
Proof. apply omap_app. Qed.

Lemma opened_app tr1 tr2 : opened (tr1 ++ tr2) = opened tr1 ++ opened tr2.
Proof. apply omap_app. Qed.

Lemma published_app tr1 tr2 :
  published (tr1 ++ tr2) = published tr1 ++ published tr2.
Proof. apply omap_app. Qed.

Lemma published_elem t tr : EvPublish t ∈ tr -> t ∈ published tr.
Proof.
  intros H. unfold published. apply list_elem_of_omap.
  exists (EvPublish t). done.
Qed.

(** A publish in a history extended by operations without a publish lies in
    the old part. *)
Lemma publish_in_old_part (tr0 tr pre post : list event) t :
  published tr = [] ->
  tr0 ++ tr = pre ++ EvPublish t :: post ->
  exists post0, tr0 = pre ++ EvPublish t :: post0.
Proof.
  intros Hp Heq.
  apply app_eq_inv in Heq as [(k & Hk1 & Hk2) | (k & Hk1 & Hk2)].
  - destruct k as [| e k].
    + simpl in Hk2. subst tr.
      assert (t ∈ published (EvPublish t :: post)) as Hin
        by (apply published_elem; left).
      rewrite Hp in Hin. by apply elem_of_nil in Hin.
    + injection Hk2 as -> _. eauto.
  - subst tr.
    assert (t ∈ published (k ++ EvPublish t :: post)) as Hin
      by (apply published_elem, elem_of_app; right; left).
    rewrite Hp in Hin. by apply elem_of_nil in Hin.
Qed.

(** Extending a history by the operations of a lookup. *)
Lemma history_wf_extend m m' tr :
  history_wf m ->
  events m' = events m ++ tr ->
  published tr = [] ->
  NoDup (stops tr) ->
  (forall t, t ∈ stops tr -> pubsub.addr t ∉ stopped m) ->
  (forall b t, topics m' !! b = Some t ->
     t ∈ opened tr \/ topics m !! b = Some t) ->
  (forall t, t ∈ stops tr \/ pubsub.addr t ∈ stopped m ->
     pubsub.addr t ∈ stopped m') ->
  (forall t, t ∈ opened tr \/ (exists b, topics m !! b = Some t) ->
     pubsub.addr t ∈ stopped m' \/ exists b, topics m' !! b = Some t) ->
  history_wf m'.
Proof.
  intros [Hheld Hstopped Hopened Honce Hlive] Hev Hp Hnd Hfresh Hmap Hst Hop.
  constructor; rewrite Hev.
  - intros b t Ht. rewrite opened_app. apply elem_of_app.
    destruct (Hmap _ _ Ht) as [? | Ht0]; [by right | left; by eapply Hheld].
  - intros t. rewrite stops_app. intros [Hin | Hin]%elem_of_app; apply Hst;
      [right; by apply Hstopped | by left].
  - intros t. rewrite opened_app. intros [Hin | Hin]%elem_of_app.
    + destruct (Hopened _ Hin) as [Hs | Hb]; [left; apply Hst; by right |].
      apply Hop. by right.
    + apply Hop. by left.
  - rewrite stops_app. apply NoDup_app. split; [done |]. split; [| done].
    intros t Hin Hin'. apply (Hfresh _ Hin'). by apply Hstopped.
  - intros pre t post Heq.
    destruct (publish_in_old_part _ _ _ _ _ Hp Heq) as [post0 Heq0].
    by eapply Hlive.
Qed.

Lemma history_wf_publish m l t :
  history_wf m ->
  pubsub.addr t ∉ stopped m ->
  history_wf (with_log m l (events m ++ [EvPublish t])).
Proof.
  intros [Hheld Hstopped Hopened Honce Hlive] Hnot.
  constructor; simpl.
  - intros b t' Ht. rewrite opened_app. apply elem_of_app. left. by eapply Hheld.
  - intros t'. rewrite stops_app, app_nil_r. apply Hstopped.
  - intros t'. rewrite opened_app, app_nil_r. apply Hopened.
  - by rewrite stops_app, app_nil_r.
  - intros pre t' post Heq.
    apply app_eq_inv in Heq as [(k & Hk1 & Hk2) | (k & Hk1 & Hk2)].
    + destruct k as [| e k]; simplify_eq/=.
      * rewrite app_nil_r in Hk1. subst pre.
        intros Hin. by apply Hnot, Hstopped.
      * by eapply Hlive.
    + destruct k as [| e k]; [| by destruct k].
      simplify_eq/=. rewrite app_nil_r.
      intros Hin. by apply Hnot, Hstopped.
Qed.

Lemma getTopicForBroker_history broker m :
  cache_wf m -> history_wf m -> history_wf (getTopicForBroker broker m).2.
Proof.
  intros Hwf Hh.
  apply (getTopicForBroker_cases broker m (fun _ m1 => history_wf m1)).
  - intros e l _ _.
    apply (history_wf_extend m _ [EvGetBroker broker]); try done.
    + apply NoDup_nil_2.
    + intros t Hin. by apply elem_of_nil in Hin.
    + intros b t Ht. by right.
    + intros t [Hin | Hin]; [by apply elem_of_nil in Hin | done].
    + intros t [Hin | Hin]; [by apply elem_of_nil in Hin | by right].
  - intros id t _ _ _.
    apply (history_wf_extend m _
             [EvGetBroker broker; EvRLock; EvRead broker; EvRUnlock]); try done.
    + apply NoDup_nil_2.
    + intros t' Hin. by apply elem_of_nil in Hin.
    + intros b t' Ht'. by right.
    + intros t' [Hin | Hin]; [by apply elem_of_nil in Hin | done].
    + intros t' [Hin | Hin]; [by apply elem_of_nil in Hin | by right].
  - intros id old _ Hold _.
    eapply (history_wf_extend m); [done | reflexivity | reflexivity | ..];
      cbn [stops opened omap topics stopped].
    + apply NoDup_singleton.
    + intros t Hin. apply list_elem_of_singleton in Hin as ->.
      by eapply wf_live.
    + intros b t. rewrite lookup_insert. case_decide.
      * intros [= <-]. left. by apply list_elem_of_singleton.
      * by right.
    + intros t [Hin | Hin]; apply elem_of_union; [left | by right].
      apply list_elem_of_singleton in Hin as ->. by apply elem_of_singleton.
    + intros t [Hin | [b Hb]].
      * apply list_elem_of_singleton in Hin as ->. right. exists broker.
        apply lookup_insert_eq.
      * destruct (decide (b = broker)) as [-> | Hne].
        -- left. assert (t = old) as -> by congruence.
           apply elem_of_union. left. by apply elem_of_singleton.
        -- right. exists b. by rewrite lookup_insert_ne.
  - intros id _ Hnone.
    eapply (history_wf_extend m); [done | reflexivity | reflexivity | ..];
      cbn [stops opened omap topics stopped].
    + apply NoDup_nil_2.
    + intros t Hin. by apply elem_of_nil in Hin.
    + intros b t. rewrite lookup_insert. case_decide.
      * intros [= <-]. left. by apply list_elem_of_singleton.
      * by right.
    + intros t [Hin | Hin]; [by apply elem_of_nil in Hin | done].
    + intros t [Hin | [b Hb]].
      * apply list_elem_of_singleton in Hin as ->. right. exists broker.
        apply lookup_insert_eq.
      * right. exists b. rewrite lookup_insert_ne; [done |]. congruence.
Qed.

Section Histories.

Context {Context_ Event Message : Type}.
Variable WritePubSubMessage : Context_ -> Event -> Message + error.
Variable PublishGet : Context_ -> pubsub.Topic -> bool -> Message -> option error.

Local Abbreviation send := (Send WritePubSubMessage PublishGet).

Lemma Send_history ctx ns broker ev m :
  cache_wf m -> history_wf m -> history_wf (send ctx ns broker ev m).2.
Proof.
  intros Hwf Hh.
  pose proof (getTopicForBroker_wf (mkNamespacedName ns broker) m Hwf) as Hwf1.
  pose proof (getTopicForBroker_history (mkNamespacedName ns broker) m Hwf Hh) as Hh1.
  destruct (Send_shape WritePubSubMessage PublishGet ctx ns broker ev m) as [-> _].
  unfold publish_stage.
  destruct (getTopicForBroker (mkNamespacedName ns broker) m) as [[t | e |] m1] eqn:Hrun;
    cbn [fst snd] in *; try by rewrite with_log_id.
  destruct (WritePubSubMessage ctx ev); [| by rewrite with_log_id].
  apply history_wf_publish; [done |].
  destruct (getTopicForBroker_Ok _ _ _ _ Hrun) as (_ & _ & Ht & _).
  by eapply wf_live.
Qed.

(** Both invariants hold of every sink that arises. *)
Lemma reachable_invariants m :
  reachable WritePubSubMessage PublishGet m -> cache_wf m /\ history_wf m.
Proof.
  induction 1 as [cfg client | cfg m _ [IHc IHh] | ctx ns broker ev m _ [IHc IHh]].
  - split; [apply cache_wf_new |].
    constructor; simpl.
    + intros b t H. by rewrite lookup_empty in H.
    + intros t H. by apply elem_of_nil in H.
    + intros t H. by apply elem_of_nil in H.
    + apply NoDup_nil_2.
    + intros pre t post Heq. by destruct pre.
  - split; [destruct IHc | destruct IHh]; by constructor.
  - split; [by apply Send_wf | by apply Send_history].
Qed.

(** X11: in every sink that arises, a handle held by the map was made by
    the sink, has not been stopped, and is held for one broker only. *)
Theorem reachable_holds_live_handles m b t :
  reachable WritePubSubMessage PublishGet m ->
  topics m !! b = Some t ->
  t ∈ opened (events m) /\
  (pubsub.addr t ∉ stopped m) /\
  (t ∉ stops (events m)) /\
  (forall b', topics m !! b' = Some t -> b' = b).
Proof.
  intros [Hc Hh]%reachable_invariants Ht.
  split; [by eapply hist_held |].
  split; [by eapply wf_live |].
  split.
  - intros Hin. eapply wf_live; [done .. |]. by eapply hist_stopped.
  - intros b' Ht'. by eapply wf_own.
Qed.

(** X12: in every sink that arises, each handle the sink has made is either
    held by the map or has been stopped, and not both: no handle is left
    open outside the map. *)
Theorem reachable_no_leak m t :
  reachable WritePubSubMessage PublishGet m ->
  t ∈ opened (events m) ->
  (pubsub.addr t ∈ stopped m /\ forall b, topics m !! b <> Some t) \/
  ((exists b, topics m !! b = Some t) /\ pubsub.addr t ∉ stopped m).
Proof.
  intros [Hc Hh]%reachable_invariants Hin.
  destruct (hist_opened _ Hh _ Hin) as [Hs | [b Hb]].
  - left. split; [done |]. intros b Hb. by eapply wf_live.
  - right. split; [eauto |]. by eapply wf_live.
Qed.

(** X13: in every sink that arises, no handle has been stopped twice, and a
    handle that has been stopped is in the stopped set and no longer in the
    map. *)
Theorem reachable_stops_once m :
  reachable WritePubSubMessage PublishGet m ->
  NoDup (stops (events m)) /\
  (forall t, t ∈ stops (events m) ->
     pubsub.addr t ∈ stopped m /\ forall b, topics m !! b <> Some t).
Proof.
  intros [Hc Hh]%reachable_invariants.
  split; [by apply hist_stop_once |].
  intros t Hin. split; [by apply hist_stopped |].
  intros b Hb. eapply wf_live; [done .. |]. by apply hist_stopped.
Qed.

(** X14: in the history of every sink that arises, no publish goes to a
    handle that was stopped earlier. *)
Theorem reachable_no_publish_after_stop m pre t post :
  reachable WritePubSubMessage PublishGet m ->
  events m = pre ++ EvPublish t :: post ->
  t ∉ stops pre.
Proof.
  intros [Hc Hh]%reachable_invariants Heq. by eapply hist_publish_live.
Qed.

End Histories.

(** ** The further properties on sample runs *)

Lemma rotated_sink_reachable :
  reachable (sample_encoder false) (sample_transport None) rotated_sink.
Proof.
  unfold rotated_sink, sent_sink, fresh_sink.
  apply reachable_Send, reachable_config, reachable_Send, reachable_new.
Qed.

Lemma sample_routed topicID cfg :
  cfg !! sample_broker =
    Some (config.mkBroker config.State_READY (Some (config.mkQueue topicID))) ->
  topicID <> "" ->
  routed cfg sample_broker topicID.
Proof. intros H Hne. eexists _, _. by split. Qed.

(** The first lookup on a sink just constructed. *)
Lemma getTopicForBroker_sound_witness :
  let m := fresh_sink (ready_config "t1") in
  let r := getTopicForBroker sample_broker m in
  topics r.2 !! sample_broker = Some (pubsub.mkTopic 0 "t1") /\
  pubsub.addr (pubsub.mkTopic 0 "t1") ∉ stopped r.2.
Proof.
  intros m r.
  destruct (getTopicForBroker_sound sample_broker m (pubsub.mkTopic 0 "t1") r.2)
    as (_ & Ht & Hlive & _).
  - apply cache_wf_new.
  - vm_compute. reflexivity.
  - split; [exact Ht | exact Hlive].
Defined.

(** Four callers racing on the first lookup of the sample broker. *)
Lemma racing_updates_agree_witness :
  let m := fresh_sink (ready_config "t1") in
  exists topic,
    (racing_updates 4 sample_broker m).1 = replicate 4 (Ok topic) /\
    opens (added m (racing_updates 4 sample_broker m).2) = 1.
Proof.
  intros m.
  destruct (racing_updates_agree 3 sample_broker m "t1")
    as (topic & Hrs & _ & _ & Hop).
  - apply sample_routed; [vm_compute; reflexivity | discriminate].
  - exists topic. split; [exact Hrs | exact Hop].
Defined.

(** A [Send] for the sample broker leaves another broker's entry alone. *)
Lemma Send_frame_witness :
  let m := used_sink "t1" in
  let other := mkNamespacedName "ns" "b2" in
  topics (Send (sample_encoder false) (sample_transport None) tt "ns" "b1" tt m).2
    !! other = topics m !! other.
Proof.
  intros m other.
  apply (Send_frame (sample_encoder false) (sample_transport None)
           tt "ns" "b1" tt m other).
  discriminate.
Defined.

(** The first [Send] for the sample broker, acknowledged. *)
Lemma Send_publishes_to_current_witness :
  let m := fresh_sink (ready_config "t1") in
  let r := Send (sample_encoder false) (sample_transport None) tt "ns" "b1" tt m in
  exists t, published (added m r.2) = [t] /\ pubsub.ID t = "t1" /\ r.1 = Ok tt.
Proof.
  intros m r.
  destruct (Send_publishes_to_current (sample_encoder false) (sample_transport None)
              tt "ns" "b1" tt m "t1" tt)
    as (t & Hp & Hid & _ & _ & Hres).
  - apply cache_wf_new.
  - apply sample_routed; [vm_compute; reflexivity | discriminate].
  - reflexivity.
  - exists t. split; [exact Hp |]. split; [exact Hid | exact Hres].
Defined.

(** A [Send] after the sample broker's topic has changed from t1 to t2. *)
Lemma Send_rotation_witness :
  let m := with_brokerConfig (ready_config "t2") (used_sink "t1") in
  let m' := (Send (sample_encoder false) (sample_transport None) tt "ns" "b1" tt m).2 in
  stops (added m m') = [pubsub.mkTopic 0 "t1"] /\
  published (added m m') = [next_topic m "t2"].
Proof.
  intros m m'.
  destruct (Send_rotation (sample_encoder false) (sample_transport None)
              tt "ns" "b1" tt m "t2" (pubsub.mkTopic 0 "t1") tt)
    as (_ & Hs & _ & Hp & _).
  - apply sample_routed; [vm_compute; reflexivity | discriminate].
  - vm_compute. reflexivity.
  - simpl. discriminate.
  - reflexivity.
  - split; [exact Hs | exact Hp].
Defined.

(** A [Send] for the sample broker under an empty configuration. *)
Lemma Send_unrouted_logs_once_witness :
  let m := fresh_sink ∅ in
  exists entry,
    logger (Send (sample_encoder false) (sample_transport None) tt "ns" "b1" tt m).2
      = logger m ++ [entry].
Proof.
  intros m.
  destruct (Send_unrouted_logs_once (sample_encoder false) (sample_transport None)
              tt "ns" "b1" tt m)
    as (entry & Hl & _).
  - intros id (bc & q & H & _). vm_compute in H. discriminate.
  - exists entry. exact Hl.
Defined.

(** The first [Send] for the sample broker. *)
Lemma Send_routed_logs_nothing_witness :
  let m := fresh_sink (ready_config "t1") in
  logger (Send (sample_encoder false) (sample_transport None) tt "ns" "b1" tt m).2
    = logger m.
Proof.
  intros m.
  apply (Send_routed_logs_nothing (sample_encoder false) (sample_transport None)
           tt "ns" "b1" tt m "t1").
  apply sample_routed; [vm_compute; reflexivity | discriminate].
Defined.

(** The handle the map holds after the rotation. *)
Lemma reachable_holds_live_handles_witness :
  pubsub.mkTopic 1 "t2" ∈ opened (events rotated_sink) /\
  pubsub.addr (pubsub.mkTopic 1 "t2") ∉ stopped rotated_sink.
Proof.
  destruct (reachable_holds_live_handles (sample_encoder false) (sample_transport None)
              rotated_sink sample_broker (pubsub.mkTopic 1 "t2"))
    as (Ho & Hl & _).
  - exact rotated_sink_reachable.
  - vm_compute. reflexivity.
  - split; [exact Ho | exact Hl].
Defined.

(** The handle replaced in the rotation: stopped and out of the map. *)
Lemma reachable_no_leak_witness :
  let t := pubsub.mkTopic 0 "t1" in
  (pubsub.addr t ∈ stopped rotated_sink /\
   forall b, topics rotated_sink !! b <> Some t) \/
  ((exists b, topics rotated_sink !! b = Some t) /\
   pubsub.addr t ∉ stopped rotated_sink).
Proof.
  intros t.
  apply (reachable_no_leak (sample_encoder false) (sample_transport None)
           rotated_sink t).
  - exact rotated_sink_reachable.
  - vm_compute. left.
Defined.

Lemma reachable_stops_once_witness :
  NoDup (stops (events rotated_sink)).
Proof.
  apply (reachable_stops_once (sample_encoder false) (sample_transport None)
           rotated_sink).
  exact rotated_sink_reachable.
Defined.

(** The publish of the second [Send]. *)
Lemma reachable_no_publish_after_stop_witness :
  pubsub.mkTopic 1 "t2" ∉ stops (take 23 (events rotated_sink)).
Proof.
  apply (reachable_no_publish_after_stop (sample_encoder false) (sample_transport None)
           rotated_sink (take 23 (events rotated_sink)) (pubsub.mkTopic 1 "t2")
           (drop 24 (events rotated_sink))).
  - exact rotated_sink_reachable.
  - vm_compute. reflexivity.
Defined.
